(** * RoadLaw AI assistant: the question-answering core of [backend/main.py]

    A shallow embedding of the retrieval pipeline (lexical scorer
    [simple_search], semantic branch [chroma_search], orchestrator
    [search_pdd]) and of the query service [ask_question] with its answer
    cache, followed by the properties the specification states about them.

    Conventions of the embedding:
    - a Python [str] is the list of its Unicode code points ([list N]),
      so [len] is [length]; [lower] replaces each code point by its
      lowercase mapping (a parameter, one or more code points), [encode]
      is UTF-8 and fails on a lone surrogate, and [hashlib.md5] is a
      parameter from bytes to the hexadecimal digest;
    - a Python [float] is an exact rational ([Q]): the constants 0.3, 0.5,
      0.2 and 1.0 are the rationals they denote and rounding is not
      modelled;
    - module-level globals that are fixed at start-up ([PDD_DATA],
      [CHROMA_AVAILABLE], [client], [openai_client]) are section variables;
      the mutable ones ([answer_cache], [cache_hits], [cache_misses]) are
      fields of an explicit state threaded through a state-and-exception
      monad;
    - the external collaborators (Chroma collection, OpenAI client) are
      functions from the request to an outcome that is either a raised
      exception or a value. *)

From Stdlib Require Import QArith Qminmax Qround ZArith NArith List Sorted Lia Ascii String.
From stdpp Require Import gmap list.

Local Open Scope Q_scope.

(** ** Python strings *)

Module PyStr.

Definition str := list N.

(** [str.isspace] on one code point: the characters Python treats as
    whitespace in [strip] and [split]. *)
Definition isspace (c : N) : bool :=
  ((9 <=? c) && (c <=? 13) || (28 <=? c) && (c <=? 32) || (c =? 133)
   || (c =? 160) || (c =? 5760) || (8192 <=? c) && (c <=? 8202)
   || (c =? 8232) || (c =? 8233) || (c =? 8239) || (c =? 8287)
   || (c =? 12288))%N.

Fixpoint lstrip (s : str) : str :=
  match s with
  | [] => []
  | c :: s' => if isspace c then lstrip s' else s
  end.

Definition rstrip (s : str) : str := rev (lstrip (rev s)).

Definition strip (s : str) : str := rstrip (lstrip s).

(** [s.split()]: maximal runs of non-whitespace characters; [cur] holds the
    current run, reversed. *)
Definition flush (cur : str) : list str :=
  match cur with
  | [] => []
  | _ => [rev cur]
  end.

Fixpoint split_from (cur : str) (s : str) : list str :=
  match s with
  | [] => flush cur
  | c :: s' =>
      if isspace c then flush cur ++ split_from [] s'
      else split_from (c :: cur) s'
  end.

Definition split (s : str) : list str := split_from [] s.

Fixpoint startswith (sub s : str) : bool :=
  match sub, s with
  | [], _ => true
  | _ :: _, [] => false
  | a :: sub', b :: s' => (a =? b)%N && startswith sub' s'
  end.

(** [sub in s] *)
Fixpoint contains (sub s : str) : bool :=
  startswith sub s
  || match s with
     | [] => false
     | _ :: s' => contains sub s'
     end.

(** [sep.join(parts)] *)
Fixpoint join (sep : str) (parts : list str) : str :=
  match parts with
  | [] => []
  | [p] => p
  | p :: rest => p ++ sep ++ join sep rest
  end.

(** Source literals are written as UTF-8 text and decoded to code points. *)
Fixpoint decode_utf8 (fuel : nat) (bs : list N) : str :=
  match fuel, bs with
  | O, _ => []
  | _, [] => []
  | S fuel', b0 :: rest =>
      if (b0 <? 128)%N then b0 :: decode_utf8 fuel' rest
      else if (b0 <? 224)%N then
        match rest with
        | b1 :: rest' =>
            ((b0 - 192) * 64 + (b1 - 128))%N :: decode_utf8 fuel' rest'
        | _ => []
        end
      else if (b0 <? 240)%N then
        match rest with
        | b1 :: b2 :: rest' =>
            ((b0 - 224) * 4096 + (b1 - 128) * 64 + (b2 - 128))%N
            :: decode_utf8 fuel' rest'
        | _ => []
        end
      else
        match rest with
        | b1 :: b2 :: b3 :: rest' =>
            ((b0 - 240) * 262144 + (b1 - 128) * 4096 + (b2 - 128) * 64
             + (b3 - 128))%N :: decode_utf8 fuel' rest'
        | _ => []
        end
  end.

(** The UTF-8 bytes of one code point. *)
Definition utf8_bytes (c : N) : list N :=
  (if c <? 128 then [c]
   else if c <? 2048 then [192 + c / 64; 128 + c mod 64]
   else if c <? 65536 then
     [224 + c / 4096; 128 + (c / 64) mod 64; 128 + c mod 64]
   else
     [240 + c / 262144; 128 + (c / 4096) mod 64; 128 + (c / 64) mod 64;
      128 + c mod 64])%N.

(** The code points U+D800 to U+DFFF, which UTF-8 cannot encode. *)
Definition is_surrogate (c : N) : bool := ((55296 <=? c) && (c <=? 57343))%N.

(** [s.encode()]: the UTF-8 bytes of [s], or [None] where Python raises
    [UnicodeEncodeError] (a lone surrogate in [s]). *)
Definition encode (s : str) : option (list N) :=
  if existsb is_surrogate s then None else Some (flat_map utf8_bytes s).

Definition lit (s : string) : str :=
  let bs := map N_of_ascii (list_ascii_of_string s) in
  decode_utf8 (length bs) bs.

End PyStr.
Import PyStr.

(** ** Python numbers *)

(** [a < b] on floats. *)
Definition Qltb (a b : Q) : bool := negb (Qle_bool b a).

(** The builtin [min(a, b)]: the first argument unless the second is
    strictly smaller. *)
Definition py_min (a b : Q) : Q := if Qltb b a then b else a.

(** [l[:n]] for a Python int [n]: a negative bound counts from the end. *)
Definition slice_to {A} (n : Z) (l : list A) : list A :=
  if (0 <=? n)%Z then take (Z.to_nat n) l
  else take (Z.to_nat (Z.of_nat (length l) + n)) l.

(** ** Data model *)

(** One entry of [PDD_DATA] (a rule of the corpus). *)
Record rule_doc := {
  id : str;
  section : str;
  title : str;
  content : str;
  keywords : list str
}.

(** A search hit: [{'rule': rule, 'relevance': relevance}]. *)
Record scored := {
  rule : rule_doc;
  relevance : Q
}.

(** An element of [Answer.sources]. *)
Record source := {
  src_section : str;
  src_id : str;
  src_title : str;
  src_relevance : Q
}.

(** The pydantic model [Answer]. *)
Record Answer := {
  answer : str;
  sources : list source;
  confidence : Q
}.

(** ** The lexical scorer: [simple_search] *)

(** [sorted(results, key=lambda x: x['relevance'], reverse=True)]: the
    builtin sort is stable and [reverse=True] keeps the original order of
    elements with equal keys, so an element is placed after exactly the
    elements whose key is strictly greater. *)
Fixpoint insert_desc (x : scored) (l : list scored) : list scored :=
  match l with
  | [] => [x]
  | y :: l' =>
      if Qltb (relevance x) (relevance y) then y :: insert_desc x l'
      else x :: l
  end.

Definition sorted_desc (results : list scored) : list scored :=
  foldr insert_desc [] results.

Section Lexical.

(** The lowercase mapping of one code point: one code point for most, several
    for some (U+0130 has two). *)
Variable lower_cp : N -> list N.
Variable PDD_DATA : list rule_doc.

(** [s.lower()]: every code point is replaced by its lowercase mapping. *)
Definition lower (s : str) : str := flat_map lower_cp s.

(** Lines 144-153: the relevance accumulated for one rule. *)
Definition keyword_step (q_lower : str) (relevance : Q) (keyword : str) : Q :=
  if contains (lower keyword) q_lower then relevance + 0.3 else relevance.

Definition rule_relevance (q_lower : str) (rule : rule_doc) : Q :=
  let keywords := keywords rule in
  let title := lower (title rule) in
  let content := lower (content rule) in
  let relevance := 0 in
  let relevance := fold_left (keyword_step q_lower) keywords relevance in
  let relevance :=
    if existsb (fun word => contains word q_lower) (split title)
    then relevance + 0.5 else relevance in
  let relevance :=
    if existsb (fun word => contains word q_lower) (split content)
    then relevance + 0.2 else relevance in
  relevance.

(** Lines 137-159: one iteration of the loop over [PDD_DATA]. *)
Definition scan_step (q_lower : str) (results : list scored) (rule : rule_doc)
  : list scored :=
  let relevance := rule_relevance q_lower rule in
  if Qltb 0 relevance
  then results ++ [{| rule := rule; relevance := py_min relevance 1 |}]
  else results.

Definition scan_rules (q_lower : str) : list scored :=
  fold_left (scan_step q_lower) PDD_DATA [].

Definition simple_search (question : str) (n_results : Z) : list scored :=
  let q_lower := lower question in
  let results := scan_rules q_lower in
  let results := sorted_desc results in
  slice_to n_results results.

End Lexical.

(** ** Service state and effects *)

(** Stages of the pipeline that a request went through. The log is ghost
    state: the program does not keep it, it records the calls the program
    makes so that "before any retrieval work" can be stated. *)
Inductive event :=
  | Retrieve (question : str) (n_results : Z)
  | SemanticQuery (question : str) (n_results : Z)
  | Generate (context_parts : list str) (question : str).

Record service_state := {
  answer_cache : gmap str Answer;
  cache_hits : Z;
  cache_misses : Z;
  pipeline_log : list event
}.

Inductive exn :=
  | HTTPException (status_code : Z) (detail : str)
  | IndexError
  | UnicodeEncodeError
  | CollaboratorError (message : str).

(** [str(e)] *)
Definition exn_message (e : exn) : str :=
  match e with
  | HTTPException _ detail => detail
  | IndexError => lit "list index out of range"
  | UnicodeEncodeError => lit "'utf-8' codec can't encode character: surrogates not allowed"
  | CollaboratorError message => message
  end.

Module Eff.

(** Computations that read and write the service state and may raise. A
    raised exception keeps the state reached so far, as in Python. *)
Definition M (A : Type) : Type := service_state -> (exn + A) * service_state.

Definition ret {A} (a : A) : M A := fun st => (inr a, st).

Definition raise {A} (e : exn) : M A := fun st => (inl e, st).

Definition bind {A B} (c : M A) (k : A -> M B) : M B :=
  fun st =>
    match c st with
    | (inr a, st') => k a st'
    | (inl e, st') => (inl e, st')
    end.

(** [try: body except Exception as e: handler(e)] *)
Definition try_except {A} (body : M A) (handler : exn -> M A) : M A :=
  fun st =>
    match body st with
    | (inr a, st') => (inr a, st')
    | (inl e, st') => handler e st'
    end.

Definition lift {A} (r : exn + A) : M A := fun st => (r, st).

Definition get_state : M service_state := fun st => (inr st, st).

Definition log (ev : event) : M unit :=
  fun st =>
    (inr tt,
     {| answer_cache := answer_cache st;
        cache_hits := cache_hits st;
        cache_misses := cache_misses st;
        pipeline_log := pipeline_log st ++ [ev] |}).

End Eff.
Import Eff.

Notation "x <- c ;; k" := (bind c (fun x => k))
  (at level 100, c at next level, right associativity).
Notation "c ;;; k" := (bind c (fun _ => k))
  (at level 100, right associativity).

(** [cache_hits += 1] *)
Definition incr_cache_hits : M unit :=
  fun st =>
    (inr tt,
     {| answer_cache := answer_cache st;
        cache_hits := cache_hits st + 1;
        cache_misses := cache_misses st;
        pipeline_log := pipeline_log st |}).

(** [cache_misses += 1] *)
Definition incr_cache_misses : M unit :=
  fun st =>
    (inr tt,
     {| answer_cache := answer_cache st;
        cache_hits := cache_hits st;
        cache_misses := cache_misses st + 1;
        pipeline_log := pipeline_log st |}).

(** [answer_cache[cache_key] = result] *)
Definition cache_store (cache_key : str) (result : Answer) : M unit :=
  fun st =>
    (inr tt,
     {| answer_cache := <[cache_key := result]> (answer_cache st);
        cache_hits := cache_hits st;
        cache_misses := cache_misses st;
        pipeline_log := pipeline_log st |}).

(** ** The semantic branch and the orchestrator *)

(** What [collection.query] returns: the two fields the program reads. *)
Record query_result := {
  documents : option (list (list str));
  distances : option (list (list Q))
}.

(** [query_results['distances'][0][i] if query_results['distances'] else 1.0] *)
Definition distance_at (distances : option (list (list Q))) (i : nat)
  : exn + Q :=
  match distances with
  | None => inr 1
  | Some [] => inr 1
  | Some (row :: _) =>
      match row !! i with
      | Some d => inr d
      | None => inl IndexError
      end
  end.

Section Pipeline.

Variable lower_cp : N -> list N.
(** [hashlib.md5(data).hexdigest()], from the bytes to the hexadecimal text. *)
Variable md5_hexdigest : list N -> str.
Variable PDD_DATA : list rule_doc.
Variable CHROMA_AVAILABLE : bool.
(** [client.get_collection(name="pdd_rules").query(query_texts=[q], n_results=n)] *)
Variable client : option (str -> Z -> exn + query_result).
(** [openai_client.chat.completions.create(...).choices[0].message.content] *)
Variable openai_client : option (list str -> str -> exn + option str).

(** Line 181-182: the first rule whose content or title occurs in [doc]. *)
Definition matching_rule (doc : str) : option rule_doc :=
  List.find (fun rule => contains (content rule) doc || contains (title rule) doc)
    PDD_DATA.

(** Lines 179-188: the loop over [enumerate(query_results['documents'][0])]. *)
Fixpoint scan_documents (distances : option (list (list Q))) (i : nat)
    (docs : list str) (results : list scored) : exn + list scored :=
  match docs with
  | [] => inr results
  | doc :: docs' =>
      match matching_rule doc with
      | Some rule =>
          match distance_at distances i with
          | inl e => inl e
          | inr distance =>
              scan_documents distances (S i) docs'
                (results ++ [{| rule := rule; relevance := 1 - py_min distance 1 |}])
          end
      | None => scan_documents distances (S i) docs' results
      end
  end.

(** Lines 177-190. *)
Definition collect_hits (query_results : query_result) : exn + list scored :=
  match documents query_results with
  | Some (docs :: _) => scan_documents (distances query_results) 0 docs []
  | _ => inr []
  end.

Definition chroma_search (question : str) (n_results : Z) : M (list scored) :=
  match client with
  | None => ret []
  | Some collection =>
      try_except
        (log (SemanticQuery question n_results) ;;;
         query_results <- lift (collection question n_results) ;;
         lift (collect_hits query_results))
        (fun _ => ret [])
  end.

Definition search_pdd (question : str) (n_results : Z) : M (list scored) :=
  log (Retrieve question n_results) ;;;
  if CHROMA_AVAILABLE then
    results <- chroma_search question n_results ;;
    match results with
    | _ :: _ => ret results
    | [] => ret (simple_search lower_cp PDD_DATA question n_results)
    end
  else ret (simple_search lower_cp PDD_DATA question n_results).

(** ** The query service: [ask_question] *)

(** Lines 99-101; [encode] raises on a question that UTF-8 cannot encode. *)
Definition get_cache_key (question : str) : exn + str :=
  match encode (strip (lower lower_cp question)) with
  | Some data => inr (md5_hexdigest data)
  | None => inl UnicodeEncodeError
  end.

(** Lines 271-275. *)
Definition not_found_answer : Answer :=
  {| answer := lit "В базе данных нет информации по этому вопросу. Пожалуйста, уточните вопрос или обратитесь к официальным источникам ПДД.";
     sources := [];
     confidence := 0 |}.

(** The three accumulators of the loop at lines 280-296. *)
Record gathered := {
  g_sources : list source;
  g_context_parts : list str;
  g_total_relevance : Q
}.

Definition gather_step (acc : gathered) (result : scored) : gathered :=
  let rule := rule result in
  let relevance := relevance result in
  {| g_sources :=
       g_sources acc
       ++ [{| src_section := section rule;
              src_id := id rule;
              src_title := title rule;
              src_relevance := relevance |}];
     g_context_parts :=
       g_context_parts acc ++ [title rule ++ lit ": " ++ content rule];
     g_total_relevance := g_total_relevance acc + relevance |}.

Definition gather (search_results : list scored) : gathered :=
  fold_left gather_step search_results
    {| g_sources := []; g_context_parts := []; g_total_relevance := 0 |}.

(** Lines 299-328: the generative step; every exception of the client is
    caught and leaves [answer = None]. *)
Definition generate (context_parts : list str) (question : str)
  : M (option str) :=
  match openai_client with
  | None => ret None
  | Some create =>
      try_except
        (log (Generate context_parts question) ;;;
         lift (create context_parts question))
        (fun _ => ret None)
  end.

(** Lines 270-346: from the search results to the cached [Answer]. *)
Definition compose_answer (cache_key question : str)
    (search_results : list scored) : M Answer :=
  match search_results with
  | [] =>
      let result := not_found_answer in
      cache_store cache_key result ;;;
      ret result
  | _ :: _ =>
      let acc := gather search_results in
      generated <- generate (g_context_parts acc) question ;;
      let answer :=
        match generated with
        | Some (c :: text) => c :: text
        | _ => lit "Найдено в ПДД РК:" ++ [10; 10]%N
               ++ join [10%N] (g_context_parts acc)
        end in
      let confidence :=
        match search_results with
        | _ :: _ =>
            py_min (g_total_relevance acc
                    / inject_Z (Z.of_nat (length search_results))) 1
        | [] => 0
        end in
      let result :=
        {| answer := answer; sources := g_sources acc;
           confidence := confidence |} in
      cache_store cache_key result ;;;
      ret result
  end.

Definition ask_question (question_data : str) : M Answer :=
  let question := strip question_data in
  match question with
  | [] => raise (HTTPException 400 (lit "Question cannot be empty"))
  | _ :: _ =>
      if (500 <? length question)%nat
      then raise (HTTPException 400 (lit "Question too long (max 500 chars)"))
      else
        cache_key <- lift (get_cache_key question) ;;
        st <- get_state ;;
        match answer_cache st !! cache_key with
        | Some cached =>
            incr_cache_hits ;;;
            ret cached
        | None =>
            incr_cache_misses ;;;
            try_except
              (search_results <- search_pdd question 3 ;;
               compose_answer cache_key question search_results)
              (fun e => raise (HTTPException 500 (exn_message e)))
        end
  end.

End Pipeline.

(** ** Auxiliary definitions used by the statements *)

(** The clamp of a number to the interval [0,1]. *)
Definition clamp01 (x : Q) : Q := Qmin (Qmax 0 x) 1.

(** The arithmetic mean of a sequence of relevances. *)
Definition mean (xs : list Q) : Q :=
  fold_right Qplus 0 xs / inject_Z (Z.of_nat (length xs)).

(** The matches of [results] whose relevance equals [v], in order. *)
Definition tied_at (v : Q) (results : list scored) : list scored :=
  List.filter (fun m => Qeq_bool (relevance m) v) results.

(** The contract the specification gives for retrieval: at most [topN]
    matches, relevance never increasing, and the matches of equal relevance
    listed in the order their rules have in the corpus. *)
Definition retrieval_contract (PDD_DATA : list rule_doc) (topN : Z)
    (results : list scored) : Prop :=
  (Z.of_nat (length results) <= topN)%Z
  /\ StronglySorted (fun a b => relevance b <= relevance a) results
  /\ forall v, map rule (tied_at v results) `sublist_of` PDD_DATA.

Section SpecScore.

Variable lower_cp : N -> list N.

(** The score as the specification words it: 0.3 per keyword found in the
    lowercased question, one flat 0.5 for the title, one flat 0.2 for the
    content, at most 1.0 in total. *)
Definition spec_score (question : str) (d : rule_doc) : Q :=
  let q := lower lower_cp question in
  let found (token : str) := contains token q in
  let keyword_part :=
    0.3 * inject_Z (Z.of_nat
            (length (List.filter (fun k => found (lower lower_cp k)) (keywords d)))) in
  let title_part :=
    if existsb found (split (lower lower_cp (title d))) then 0.5 else 0 in
  let content_part :=
    if existsb found (split (lower lower_cp (content d))) then 0.2 else 0 in
  Qmin (keyword_part + title_part + content_part) 1.

(** The hit the loop of [simple_search] appends for one rule, if any. *)
Definition hit_of (q_lower : str) (rule : rule_doc) : list scored :=
  if Qltb 0 (rule_relevance lower_cp q_lower rule)
  then [{| rule := rule;
           relevance := py_min (rule_relevance lower_cp q_lower rule) 1 |}]
  else [].

End SpecScore.

(** The state after the pipeline logged [evs]. *)
Definition with_log (st : service_state) (evs : list event) : service_state :=
  {| answer_cache := answer_cache st;
     cache_hits := cache_hits st;
     cache_misses := cache_misses st;
     pipeline_log := pipeline_log st ++ evs |}.

Section PureViews.

Variable lower_cp : N -> list N.
Variable PDD_DATA : list rule_doc.
Variable CHROMA_AVAILABLE : bool.
Variable client : option (str -> Z -> exn + query_result).

(** The value [chroma_search] returns, as a function of the backend's
    answer (shown below to be what the monadic definition computes). *)
Definition semantic_hits (question : str) (n_results : Z) : list scored :=
  match client with
  | None => []
  | Some collection =>
      match collection question n_results with
      | inl _ => []
      | inr query_results =>
          match collect_hits PDD_DATA query_results with
          | inl _ => []
          | inr results => results
          end
      end
  end.

(** The value [search_pdd] returns. *)
Definition retrieved (question : str) (n_results : Z) : list scored :=
  if CHROMA_AVAILABLE then
    match semantic_hits question n_results with
    | [] => simple_search lower_cp PDD_DATA question n_results
    | results => results
    end
  else simple_search lower_cp PDD_DATA question n_results.

(** The stages [search_pdd] logs. *)
Definition retrieval_events (question : str) (n_results : Z) : list event :=
  Retrieve question n_results
  :: match CHROMA_AVAILABLE, client with
     | true, Some _ => [SemanticQuery question n_results]
     | _, _ => []
     end.

End PureViews.

Section AnswerViews.

Variable openai_client : option (list str -> str -> exn + option str).

(** The value [generate] returns: the text of the completion, if the client
    is configured and its call does not raise. *)
Definition generated_text (context_parts : list str) (question : str)
  : option str :=
  match openai_client with
  | None => None
  | Some create =>
      match create context_parts question with
      | inl _ => None
      | inr text => text
      end
  end.

(** The stage [generate] logs. *)
Definition generation_events (context_parts : list str) (question : str)
  : list event :=
  match openai_client with
  | None => []
  | Some _ => [Generate context_parts question]
  end.

(** The [Answer] that [compose_answer] builds and caches. *)
Definition composed (question : str) (search_results : list scored) : Answer :=
  match search_results with
  | [] => not_found_answer
  | _ :: _ =>
      let acc := gather search_results in
      {| answer :=
           match generated_text (g_context_parts acc) question with
           | Some (c :: text) => c :: text
           | _ => lit "Найдено в ПДД РК:" ++ [10; 10]%N
                  ++ join [10%N] (g_context_parts acc)
           end;
         sources := g_sources acc;
         confidence :=
           py_min (g_total_relevance acc
                   / inject_Z (Z.of_nat (length search_results))) 1 |}
  end.

(** The stages [compose_answer] logs. *)
Definition composition_events (question : str) (search_results : list scored)
  : list event :=
  match search_results with
  | [] => []
  | _ :: _ => generation_events (g_context_parts (gather search_results)) question
  end.

End AnswerViews.

(** The entry of [sources] built for one match (lines 288-293). *)
Definition source_of (result : scored) : source :=
  {| src_section := section (rule result);
     src_id := id (rule result);
     src_title := title (rule result);
     src_relevance := relevance result |}.

(** The state after a cache hit. *)
Definition after_hit (st : service_state) : service_state :=
  {| answer_cache := answer_cache st;
     cache_hits := cache_hits st + 1;
     cache_misses := cache_misses st;
     pipeline_log := pipeline_log st |}.

(** The state after a cache miss that stored [result] under [cache_key] and
    went through the stages [evs]. *)
Definition after_miss (st : service_state) (cache_key : str) (result : Answer)
    (evs : list event) : service_state :=
  {| answer_cache := <[cache_key := result]> (answer_cache st);
     cache_hits := cache_hits st;
     cache_misses := cache_misses st + 1;
     pipeline_log := pipeline_log st ++ evs |}.

(** A question is rejected when it is empty after trimming or longer than
    500 characters after trimming. *)
Definition invalid_input (question_data : str) : Prop :=
  strip question_data = [] \/ (500 < length (strip question_data))%nat.

(** The backend reported no distance below 1.0 for the [k] documents it
    returned (or reported no distances at all). *)
Definition no_near_distance (ds : option (list (list Q))) (k : nat) : Prop :=
  match ds with
  | None => True
  | Some [] => True
  | Some (row :: _) => (k <= length row)%nat /\ Forall (fun d => 1 <= d) row
  end.

(** [prepare_data.prepare_documents], line 39: the text indexed for a rule. *)
Definition indexed_text (r : rule_doc) : str :=
  title r ++ lit ". " ++ content r.

(** ** Concrete instances for the examples *)

(** Lower-casing of the Latin and Cyrillic capital letters, and of U+0130
    (capital I with dot above), whose lowercase is two code points. *)
Definition lower_cp_basic (c : N) : list N :=
  if ((65 <=? c) && (c <=? 90))%N then [(c + 32)%N]
  else if ((1040 <=? c) && (c <=? 1071))%N then [(c + 32)%N]
  else if ((1024 <=? c) && (c <=? 1039))%N then [(c + 80)%N]
  else if (c =? 304)%N then [105; 775]%N
  else [c].

(** A stand-in for the digest that keeps the encoded text as the key. *)
Definition plain_key (data : list N) : str := data.

Definition rule_13_7 : rule_doc :=
  {| id := lit "13.7";
     section := lit "13. Проезд перекрестков";
     title := lit "Приоритет на круговом движении";
     content := lit "Водитель уступает дорогу";
     keywords := [lit "круг"] |}.

Definition rule_6_2 : rule_doc :=
  {| id := lit "6.2";
     section := lit "6. Сигналы светофора";
     title := lit "Сигналы светофора";
     content := lit "Красный сигнал запрещает движение";
     keywords := [lit "красный"; lit "светофор"] |}.

Definition demo_corpus : list rule_doc := [rule_13_7; rule_6_2].

Definition empty_state : service_state :=
  {| answer_cache := ∅; cache_hits := 0; cache_misses := 0;
     pipeline_log := [] |}.

(** A backend that answers every query with the two rules of the demo
    corpus at the same distance, the second rule first. *)
Definition tie_backend (question : str) (n_results : Z) : exn + query_result :=
  inr {| documents := Some [[indexed_text rule_6_2; indexed_text rule_13_7]];
         distances := Some [[0.4; 0.4]] |}.

(** A backend that reports a negative distance. *)
Definition negative_backend (question : str) (n_results : Z)
  : exn + query_result :=
  inr {| documents := Some [[indexed_text rule_13_7]];
         distances := Some [[- (1 # 2)]] |}.

(** A backend that reports only far documents. *)
Definition far_backend (question : str) (n_results : Z) : exn + query_result :=
  inr {| documents := Some [[indexed_text rule_13_7; indexed_text rule_6_2]];
         distances := Some [[1; 1.5]] |}.

(** A backend whose query raises. *)
Definition failing_backend (question : str) (n_results : Z)
  : exn + query_result :=
  inl (CollaboratorError (lit "collection pdd_rules does not exist")).

(** ** The metrics endpoint: [get_metrics] *)

(** [round(x)] to the nearest integer, ties to the even one. *)
Definition round_half_even (x : Q) : Z :=
  let f := Qfloor x in
  let r := x - inject_Z f in
  if Qltb r (1 # 2) then f
  else if Qltb (1 # 2) r then (f + 1)%Z
  else if Z.even f then f else (f + 1)%Z.

(** [round(x, 2)] *)
Definition py_round2 (x : Q) : Q := inject_Z (round_half_even (x * 100)) / 100.

Module Metrics.

(** The dictionary [get_metrics] returns. *)
Record t := {
  total_queries : Z;
  cache_hits : Z;
  cache_misses : Z;
  hit_rate_percent : Q;
  cache_size : nat
}.

End Metrics.

(** Lines 230-242. *)
Definition get_metrics : M Metrics.t :=
  st <- get_state ;;
  let total_queries := (cache_hits st + cache_misses st)%Z in
  let hit_rate :=
    if (0 <? total_queries)%Z
    then inject_Z (cache_hits st) / inject_Z total_queries * 100
    else 0 in
  ret {| Metrics.total_queries := total_queries;
         Metrics.cache_hits := cache_hits st;
         Metrics.cache_misses := cache_misses st;
         Metrics.hit_rate_percent := py_round2 hit_rate;
         Metrics.cache_size := size (answer_cache st) |}.

(** ** Building the vector index: [prepare_data.prepare_documents] *)

(** A rule as [prepare_data.py] reads it: the record of [main.py] together
    with the ['type'] key, which [main.py] never looks at. *)
Record typed_rule := {
  base : rule_doc;
  rule_type : str
}.

(** One element of [metadatas]. *)
Record metadata := {
  md_section : str;
  md_type : str;
  md_keywords : str;
  md_title : str
}.

(** Lines 36-48: one iteration of the loop. *)
Definition prepare_step (acc : list str * list str * list metadata)
    (rule : typed_rule) : list str * list str * list metadata :=
  let '(ids, documents, metadatas) := acc in
  let doc_id := id (base rule) in
  let full_text := indexed_text (base rule) in
  (ids ++ [doc_id],
   documents ++ [full_text],
   metadatas ++ [{| md_section := section (base rule);
                    md_type := rule_type rule;
                    md_keywords := join (lit ", ") (keywords (base rule));
                    md_title := title (base rule) |}]).

Definition prepare_documents (rules : list typed_rule)
  : list str * list str * list metadata :=
  fold_left prepare_step rules ([], [], []).

(** ** Serving a sequence of requests *)

(** One call of the [/ask] endpoint: the question, and how the two external
    collaborators behave while it is served. *)
Record request := {
  asked : str;
  via_client : option (str -> Z -> exn + query_result);
  via_openai : option (list str -> str -> exn + option str)
}.

Section Serving.

Variable lower_cp : N -> list N.
Variable md5_hexdigest : list N -> str.
Variable PDD_DATA : list rule_doc.
Variable CHROMA_AVAILABLE : bool.

(** The response to one request and the state it leaves. *)
Definition respond (st : service_state) (r : request)
  : (exn + Answer) * service_state :=
  ask_question lower_cp md5_hexdigest PDD_DATA CHROMA_AVAILABLE
    (via_client r) (via_openai r) (asked r) st.

(** The state after the requests were served one after the other. *)
Definition serve (requests : list request) (st : service_state)
  : service_state :=
  fold_left (fun st r => (respond st r).2) requests st.

End Serving.

(** The boolean form of input validation (lines 251-255). *)
Definition is_valid (question_data : str) : bool :=
  match strip question_data with
  | [] => false
  | q => (length q <=? 500)%nat
  end.

(** Whether line 258 computes a cache key for the question: its trimmed,
    lowercased form holds no code point that UTF-8 cannot encode. *)
Definition has_cache_key (lower_cp : N -> list N) (question_data : str) : bool :=
  negb (existsb is_surrogate (strip (lower lower_cp (strip question_data)))).

(** The requests that reach the cache lookup: valid, with a cache key. *)
Definition reaches_cache (lower_cp : N -> list N) (r : request) : bool :=
  is_valid (asked r) && has_cache_key lower_cp (asked r).

(** An answer a client can use: some text, and a confidence between 0 and 1. *)
Definition answer_ok (a : Answer) : Prop :=
  answer a <> [] /\ 0 <= confidence a /\ confidence a <= 1.

(** What holds of every state the service reaches from start-up. *)
Definition state_ok (st : service_state) : Prop :=
  (0 <= cache_hits st)%Z
  /\ (0 <= cache_misses st)%Z
  /\ (Z.of_nat (size (answer_cache st)) <= cache_misses st)%Z
  /\ forall k a, answer_cache st !! k = Some a -> answer_ok a.

(** A collection whose answer carries fewer distances than documents. *)
Definition short_backend (question : str) (n_results : Z) : exn + query_result :=
  inr {| documents := Some [[indexed_text rule_13_7; indexed_text rule_6_2]];
         distances := Some [[0.2]] |}.

(** A generative client whose call raises. *)
Definition failing_openai (context_parts : list str) (question : str)
  : exn + option str :=
  inl (CollaboratorError (lit "insufficient_quota")).

(** A rule that lists an empty keyword. *)
Definition rule_blank_keyword : rule_doc :=
  {| id := lit "0.0";
     section := lit "0";
     title := lit "Общие положения";
     content := lit "Термины";
     keywords := [[]] |}.

(** Requests used in the examples. *)
Definition plain_request (question : str) : request :=
  {| asked := question; via_client := None; via_openai := None |}.

Definition negative_request (question : str) : request :=
  {| asked := question;
     via_client := Some negative_backend;
     via_openai := None |}.

(** The rule of the repository's own test of [prepare_documents]. *)
Definition test_rule : typed_rule :=
  {| base := {| id := lit "1.1"; section := lit "Section 1";
                title := lit "Test Rule"; content := lit "Test content";
                keywords := [lit "test"] |};
     rule_type := lit "rule" |}.

(** ** Sanity checks of the string model *)

Example lit_cyrillic : lit "ПДД a" = [1055; 1044; 1044; 32; 97]%N.
Proof. reflexivity. Qed.

Example strip_demo : strip (lit "  ab c ") = lit "ab c".
Proof. reflexivity. Qed.

Example split_demo : split (lit " ab  c d ") = [lit "ab"; lit "c"; lit "d"].
Proof. reflexivity. Qed.

Example contains_demo :
  contains (lit "bc") (lit "abcd") = true /\ contains (lit "bd") (lit "abcd") = false
  /\ contains [] (lit "x") = true.
Proof. repeat split; reflexivity. Qed.


Example encode_demo :
  encode (lit "ПДД a") = Some [208; 159; 208; 148; 208; 148; 32; 97]%N
  /\ decode_utf8 8 [208; 159; 208; 148; 208; 148; 32; 97]%N = lit "ПДД a"
  /\ encode [97; 55296]%N = None.
Proof. repeat split; reflexivity. Qed.

Example lower_demo :
  lower lower_cp_basic (lit "Кто Go?") = lit "кто go?"
  /\ length (lower lower_cp_basic [304; 304]%N) = 4%nat.
Proof. split; reflexivity. Qed.

(** * Properties *)

(** ** Strings *)

Lemma lstrip_app (a b : str) :
  lstrip (a ++ b)
  = match lstrip a with
    | [] => lstrip b
    | c :: l => (c :: l) ++ b
    end.
Proof.
  induction a as [|x a IH]; simpl; [now destruct (lstrip b)|].
  destruct (isspace x); [exact IH | reflexivity].
Qed.

Lemma lstrip_blank (ws : str) :
  Forall (fun c => isspace c = true) ws -> lstrip ws = [].
Proof. induction 1 as [|c ws Hc _ IH]; simpl; [reflexivity | now rewrite Hc]. Qed.

Lemma strip_padding (ws1 s ws2 : str) :
  Forall (fun c => isspace c = true) ws1 ->
  Forall (fun c => isspace c = true) ws2 ->
  strip (ws1 ++ s ++ ws2) = strip s.
Proof.
  intros H1 H2. unfold strip.
  rewrite lstrip_app, (lstrip_blank ws1 H1), lstrip_app.
  destruct (lstrip s) as [|c l] eqn:Hs.
  - now rewrite (lstrip_blank ws2 H2).
  - unfold rstrip. rewrite rev_app_distr, lstrip_app.
    rewrite (lstrip_blank (rev ws2)); [reflexivity|].
    now apply Forall_rev.
Qed.




Section LowerFacts.

Variable lower_cp : N -> list N.
Hypothesis lower_blank :
  forall c, isspace c = true -> Forall (fun c' => isspace c' = true) (lower_cp c).

Lemma lower_app (a b : str) :
  lower lower_cp (a ++ b) = lower lower_cp a ++ lower lower_cp b.
Proof. unfold lower. apply flat_map_app. Qed.

Lemma lower_blank_all (ws : str) :
  Forall (fun c => isspace c = true) ws ->
  Forall (fun c => isspace c = true) (lower lower_cp ws).
Proof using lower_blank.
  induction 1 as [|c ws Hc _ IH]; unfold lower; simpl; [constructor|].
  apply Forall_app. split; [now apply lower_blank | exact IH].
Qed.


End LowerFacts.

(** ** Numbers *)

Lemma Qltb_lt (a b : Q) : Qltb a b = true <-> a < b.
Proof.
  unfold Qltb. rewrite negb_true_iff, <- not_true_iff_false, Qle_bool_iff.
  split; [apply Qnot_le_lt | apply Qlt_not_le].
Qed.

Lemma Qltb_ge (a b : Q) : Qltb a b = false <-> b <= a.
Proof.
  unfold Qltb. rewrite negb_false_iff. apply Qle_bool_iff.
Qed.

Lemma py_min_Qmin (a b : Q) : py_min a b == Qmin a b.
Proof.
  unfold py_min. destruct (Qltb b a) eqn:H.
  - apply Qltb_lt in H. symmetry. apply Q.min_r. now apply Qlt_le_weak.
  - apply Qltb_ge in H. symmetry. now apply Q.min_l.
Qed.

Lemma py_min_pos (a : Q) : 0 < a -> 0 < py_min a 1.
Proof.
  intros H. unfold py_min. destruct (Qltb 1 a); [reflexivity | exact H].
Qed.

Lemma py_min_le_r (a b : Q) : py_min a b <= b.
Proof.
  rewrite py_min_Qmin. apply Q.le_min_r.
Qed.

Lemma Qplus_nonneg (a b : Q) : 0 <= a -> 0 <= b -> 0 <= a + b.
Proof.
  intros Ha Hb. apply Qle_trans with (0 + 0); [discriminate|].
  now apply Qplus_le_compat.
Qed.

(** ** The stable descending sort *)

Lemma insert_desc_perm (x : scored) (l : list scored) :
  insert_desc x l ≡ₚ x :: l.
Proof.
  induction l as [|y l IH]; simpl; [reflexivity|].
  destruct (Qltb (relevance x) (relevance y)); [|reflexivity].
  rewrite IH. apply Permutation_swap.
Qed.

Lemma sorted_desc_perm (l : list scored) : sorted_desc l ≡ₚ l.
Proof.
  induction l as [|x l IH]; simpl; [reflexivity|].
  rewrite insert_desc_perm. now rewrite IH.
Qed.

Lemma insert_desc_sorted (x : scored) (l : list scored) :
  StronglySorted (fun a b => relevance b <= relevance a) l ->
  StronglySorted (fun a b => relevance b <= relevance a) (insert_desc x l).
Proof.
  induction 1 as [|y l Hs IH Hy]; simpl.
  - repeat constructor.
  - destruct (Qltb (relevance x) (relevance y)) eqn:Hxy.
    + apply Qltb_lt in Hxy. constructor; [exact IH|].
      rewrite insert_desc_perm. constructor; [now apply Qlt_le_weak | exact Hy].
    + apply Qltb_ge in Hxy. constructor.
      * now constructor.
      * constructor; [exact Hxy|].
        eapply Forall_impl; [exact Hy|]. simpl. intros z Hz.
        now apply Qle_trans with (relevance y).
Qed.

Lemma sorted_desc_sorted (l : list scored) :
  StronglySorted (fun a b => relevance b <= relevance a) (sorted_desc l).
Proof.
  induction l as [|x l IH]; simpl; [constructor | now apply insert_desc_sorted].
Qed.

(** Stability: the sort never reorders two matches of equal relevance. *)
Lemma insert_desc_tied (v : Q) (x : scored) (l : list scored) :
  tied_at v (insert_desc x l) = tied_at v (x :: l).
Proof.
  induction l as [|y l IH]; [reflexivity|].
  simpl insert_desc. destruct (Qltb (relevance x) (relevance y)) eqn:Hxy;
    [|reflexivity].
  apply Qltb_lt in Hxy.
  unfold tied_at in *. simpl in *. rewrite IH.
  destruct (Qeq_bool (relevance x) v) eqn:Hx; [|reflexivity].
  destruct (Qeq_bool (relevance y) v) eqn:Hy; [|reflexivity].
  apply Qeq_bool_iff in Hx, Hy. rewrite Hx, Hy in Hxy.
  now apply Qlt_irrefl in Hxy.
Qed.

Lemma sorted_desc_tied (v : Q) (l : list scored) :
  tied_at v (sorted_desc l) = tied_at v l.
Proof.
  induction l as [|x l IH]; [reflexivity|].
  simpl sorted_desc. rewrite insert_desc_tied.
  unfold tied_at in *. simpl. now rewrite IH.
Qed.

Lemma StronglySorted_take {A} (R : A -> A -> Prop) (n : nat) (l : list A) :
  StronglySorted R l -> StronglySorted R (take n l).
Proof.
  intros H. revert n. induction H as [|x l Hs IH Hx]; intros [|n]; simpl;
    try constructor.
  - apply IH.
  - apply Forall_take. exact Hx.
Qed.

Lemma tied_at_sublist (v : Q) (l1 l2 : list scored) :
  l1 `sublist_of` l2 -> tied_at v l1 `sublist_of` tied_at v l2.
Proof.
  induction 1 as [|x l1 l2 Hs IH|x l1 l2 Hs IH]; unfold tied_at in *; simpl.
  - constructor.
  - destruct (Qeq_bool (relevance x) v); [now constructor | exact IH].
  - destruct (Qeq_bool (relevance x) v); [now constructor | exact IH].
Qed.

Lemma tied_at_self_sublist (v : Q) (l : list scored) :
  tied_at v l `sublist_of` l.
Proof.
  induction l as [|x l IH]; unfold tied_at in *; simpl; [constructor|].
  destruct (Qeq_bool (relevance x) v); now constructor.
Qed.

Lemma map_sublist {A B} (f : A -> B) (l1 l2 : list A) :
  l1 `sublist_of` l2 -> map f l1 `sublist_of` map f l2.
Proof. induction 1; simpl; now constructor. Qed.

Lemma omap_length_le {A B} (f : A -> option B) (l : list A) :
  (length (omap f l) <= length l)%nat.
Proof.
  induction l as [|x l IH]; cbn; [lia|].
  destruct (f x); cbn; lia.
Qed.

Lemma slice_to_sublist {A} (n : Z) (l : list A) : slice_to n l `sublist_of` l.
Proof.
  unfold slice_to. destruct (0 <=? n)%Z; apply sublist_take.
Qed.

Lemma slice_to_length {A} (n : Z) (l : list A) :
  (0 <= n)%Z -> (Z.of_nat (length (slice_to n l)) <= n)%Z.
Proof.
  intros Hn. unfold slice_to.
  destruct (0 <=? n)%Z eqn:H; [|apply Z.leb_gt in H; lia].
  rewrite length_take. lia.
Qed.

(** ** The loop of [simple_search] *)

Section LexicalFacts.

Variable lower_cp : N -> list N.
Variable PDD_DATA : list rule_doc.

Lemma scan_fold (q_lower : str) (rules : list rule_doc) (acc : list scored) :
  fold_left (scan_step lower_cp q_lower) rules acc
  = acc ++ flat_map (hit_of lower_cp q_lower) rules.
Proof.
  revert acc. induction rules as [|r rules IH]; intros acc; simpl.
  - now rewrite app_nil_r.
  - rewrite IH. unfold scan_step, hit_of.
    destruct (Qltb 0 (rule_relevance lower_cp q_lower r)); simpl.
    + now rewrite <- app_assoc.
    + reflexivity.
Qed.

Lemma scan_rules_hits (q_lower : str) :
  scan_rules lower_cp PDD_DATA q_lower
  = flat_map (hit_of lower_cp q_lower) PDD_DATA.
Proof. unfold scan_rules. now rewrite scan_fold. Qed.

Lemma hits_rules_sublist (q_lower : str) (rules : list rule_doc) :
  map rule (flat_map (hit_of lower_cp q_lower) rules) `sublist_of` rules.
Proof.
  induction rules as [|r rules IH]; simpl; [constructor|].
  unfold hit_of at 1.
  destruct (Qltb 0 (rule_relevance lower_cp q_lower r)); simpl;
    now constructor.
Qed.

Lemma scan_rules_elem (q_lower : str) (m : scored) :
  m ∈ scan_rules lower_cp PDD_DATA q_lower <->
  rule m ∈ PDD_DATA
  /\ 0 < rule_relevance lower_cp q_lower (rule m)
  /\ relevance m = py_min (rule_relevance lower_cp q_lower (rule m)) 1.
Proof.
  rewrite scan_rules_hits, list_elem_of_In, in_flat_map. split.
  - intros (r & Hr & Hm). unfold hit_of in Hm.
    destruct (Qltb 0 (rule_relevance lower_cp q_lower r)) eqn:Hpos;
      [|contradiction].
    destruct Hm as [<-|[]]. simpl.
    apply Qltb_lt in Hpos. rewrite list_elem_of_In. auto.
  - intros (Hr & Hpos & Hrel). exists (rule m). split.
    + now apply list_elem_of_In.
    + unfold hit_of. apply Qltb_lt in Hpos. rewrite Hpos. left.
      destruct m as [r v]; simpl in *. now subst.
Qed.

Lemma simple_search_sublist (question : str) (n : Z) :
  simple_search lower_cp PDD_DATA question n
  `sublist_of` sorted_desc (scan_rules lower_cp PDD_DATA (lower lower_cp question)).
Proof. unfold simple_search. apply slice_to_sublist. Qed.

Lemma simple_search_elem (question : str) (n : Z) (m : scored) :
  m ∈ simple_search lower_cp PDD_DATA question n ->
  m ∈ scan_rules lower_cp PDD_DATA (lower lower_cp question).
Proof.
  intros H. eapply elem_of_sublist in H; [|apply simple_search_sublist].
  now rewrite sorted_desc_perm in H.
Qed.

End LexicalFacts.

(** ** C1: the relevance scorer *)

Section ScorerFacts.

Variable lower_cp : N -> list N.
Variable PDD_DATA : list rule_doc.

Lemma keyword_fold (q_lower : str) (kws : list str) (acc : Q) :
  fold_left (keyword_step lower_cp q_lower) kws acc
  == acc + 0.3 * inject_Z (Z.of_nat (length
       (List.filter (fun k => contains (lower lower_cp k) q_lower) kws))).
Proof.
  revert acc. induction kws as [|k kws IH]; intros acc; simpl fold_left.
  - simpl. ring.
  - rewrite IH. unfold keyword_step. simpl List.filter.
    destruct (contains (lower lower_cp k) q_lower).
    + cbn [length]. rewrite Nat2Z.inj_succ, <- Z.add_1_r, inject_Z_plus.
      change (inject_Z 1) with 1. ring.
    + reflexivity.
Qed.

Lemma rule_relevance_sum (q_lower : str) (d : rule_doc) :
  rule_relevance lower_cp q_lower d
  == 0.3 * inject_Z (Z.of_nat (length
       (List.filter (fun k => contains (lower lower_cp k) q_lower) (keywords d))))
     + (if existsb (fun w => contains w q_lower) (split (lower lower_cp (title d)))
        then 0.5 else 0)
     + (if existsb (fun w => contains w q_lower) (split (lower lower_cp (content d)))
        then 0.2 else 0).
Proof.
  unfold rule_relevance. cbv zeta.
  pose proof (keyword_fold q_lower (keywords d) 0) as Hk.
  destruct (existsb _ (split (lower lower_cp (title d))));
    destruct (existsb _ (split (lower lower_cp (content d))));
    rewrite Hk; ring.
Qed.

Lemma rule_relevance_nonneg (q_lower : str) (d : rule_doc) :
  0 <= rule_relevance lower_cp q_lower d.
Proof.
  rewrite rule_relevance_sum.
  set (n := length _).
  assert (0 <= 0.3 * inject_Z (Z.of_nat n)).
  { apply Qmult_le_0_compat; [discriminate|].
    change 0 with (inject_Z 0). rewrite <- Zle_Qle. lia. }
  assert (forall (b : bool) (x : Q), 0 <= x -> 0 <= (if b then x else 0))
    as Hif by (intros [] x Hx; [exact Hx | apply Qle_refl]).
  repeat apply Qplus_nonneg; try assumption; apply Hif; discriminate.
Qed.

Lemma clamped_score (question : str) (d : rule_doc) :
  py_min (rule_relevance lower_cp (lower lower_cp question) d) 1
  == spec_score lower_cp question d.
Proof.
  rewrite py_min_Qmin. unfold spec_score. cbv zeta.
  now rewrite rule_relevance_sum.
Qed.

Lemma score_zero_iff (question : str) (d : rule_doc) :
  spec_score lower_cp question d == 0
  <-> ~ 0 < rule_relevance lower_cp (lower lower_cp question) d.
Proof.
  rewrite <- clamped_score.
  pose proof (rule_relevance_nonneg (lower lower_cp question) d) as Hge.
  split.
  - intros Hz Hpos. apply py_min_pos in Hpos. rewrite Hz in Hpos.
    now apply Qlt_irrefl in Hpos.
  - intros Hn. apply Qnot_lt_le in Hn.
    assert (rule_relevance lower_cp (lower lower_cp question) d == 0) as Hz
      by now apply Qle_antisym.
    rewrite py_min_Qmin, Hz. reflexivity.
Qed.

(** C1. The score [simple_search] assigns to a rule is the score the
    specification describes (0.3 per keyword of the rule found in the
    lowercased question, a flat 0.5 for the title tokens, a flat 0.2 for the
    content tokens, clamped to at most 1.0); every ranked match carries that
    score for a rule of the corpus; a rule whose score is 0 is never
    ranked, and a rule whose score is not 0 is ranked when the ranking is
    not cut short. *)
Theorem relevance_scorer_as_specified (question : str) :
  (forall d,
     py_min (rule_relevance lower_cp (lower lower_cp question) d) 1
     == spec_score lower_cp question d)
  /\ (forall n m,
        m ∈ simple_search lower_cp PDD_DATA question n ->
        rule m ∈ PDD_DATA
        /\ relevance m == spec_score lower_cp question (rule m)
        /\ ~ spec_score lower_cp question (rule m) == 0)
  /\ (forall d,
        d ∈ PDD_DATA -> ~ spec_score lower_cp question d == 0 ->
        exists m,
          m ∈ simple_search lower_cp PDD_DATA question
                (Z.of_nat (length PDD_DATA))
          /\ rule m = d).
Proof.
  split; [apply clamped_score|]. split.
  - intros n m Hm. apply simple_search_elem, scan_rules_elem in Hm.
    destruct Hm as (Hin & Hpos & Hrel). split; [exact Hin|]. split.
    + rewrite Hrel. apply clamped_score.
    + rewrite score_zero_iff. tauto.
  - intros d Hd Hnz.
    assert (0 < rule_relevance lower_cp (lower lower_cp question) d) as Hpos.
    { destruct (Qlt_le_dec 0 (rule_relevance lower_cp (lower lower_cp question) d))
        as [H|H]; [exact H|].
      exfalso. apply Hnz, score_zero_iff. now apply Qle_not_lt. }
    exists {| rule := d;
              relevance :=
                py_min (rule_relevance lower_cp (lower lower_cp question) d) 1 |}.
    split; [|reflexivity].
    unfold simple_search, slice_to. cbv zeta.
    destruct (0 <=? Z.of_nat (length PDD_DATA))%Z eqn:Hle;
      [|apply Z.leb_gt in Hle; lia].
    rewrite Nat2Z.id, take_ge.
    + rewrite sorted_desc_perm. apply scan_rules_elem. simpl. auto.
    + rewrite sorted_desc_perm, scan_rules_hits.
      pose proof (sublist_length _ _
                    (hits_rules_sublist lower_cp (lower lower_cp question) PDD_DATA))
        as Hlen.
      now rewrite length_map in Hlen.
Qed.

End ScorerFacts.

(** ** The monadic definitions compute the pure views *)

Lemma with_log_app (st : service_state) (e1 e2 : list event) :
  with_log (with_log st e1) e2 = with_log st (e1 ++ e2).
Proof. unfold with_log. simpl. now rewrite <- app_assoc. Qed.

Section RetrievalFacts.

Variable lower_cp : N -> list N.
Variable PDD_DATA : list rule_doc.
Variable CHROMA_AVAILABLE : bool.
Variable client : option (str -> Z -> exn + query_result).

Lemma chroma_search_run (question : str) (n : Z) (st : service_state) :
  chroma_search PDD_DATA client question n st
  = (inr (semantic_hits PDD_DATA client question n),
     match client with
     | Some _ => with_log st [SemanticQuery question n]
     | None => st
     end).
Proof.
  unfold chroma_search, semantic_hits. destruct client as [collection|];
    [|reflexivity].
  unfold try_except, bind, log, lift, ret. fold (with_log st [SemanticQuery question n]).
  destruct (collection question n) as [e|qr]; [reflexivity|].
  destruct (collect_hits PDD_DATA qr); reflexivity.
Qed.

Lemma search_pdd_run (question : str) (n : Z) (st : service_state) :
  search_pdd lower_cp PDD_DATA CHROMA_AVAILABLE client question n st
  = (inr (retrieved lower_cp PDD_DATA CHROMA_AVAILABLE client question n),
     with_log st (retrieval_events CHROMA_AVAILABLE client question n)).
Proof.
  unfold search_pdd, retrieved, retrieval_events.
  unfold bind at 1. unfold log. fold (with_log st [Retrieve question n]).
  destruct CHROMA_AVAILABLE; [|reflexivity].
  unfold bind. rewrite chroma_search_run.
  destruct client as [collection|].
  - rewrite with_log_app. simpl app.
    destruct (semantic_hits PDD_DATA (Some collection) question n); reflexivity.
  - reflexivity.
Qed.

Lemma scan_documents_rules (ds : option (list (list Q))) (docs : list str) :
  forall i acc results,
    scan_documents PDD_DATA ds i docs acc = inr results ->
    map rule results = map rule acc ++ omap (matching_rule PDD_DATA) docs.
Proof.
  induction docs as [|doc docs IH]; intros i acc results; simpl.
  - intros [= <-]. now rewrite app_nil_r.
  - destruct (matching_rule PDD_DATA doc) as [r|].
    + destruct (distance_at ds i) as [e|d]; [discriminate|].
      intros H. apply IH in H. rewrite H, map_app, <- app_assoc. reflexivity.
    + apply IH.
Qed.

(** The semantic branch is taken exactly when the backend produced a
    non-empty list of hits, which then lists the matched rules in the order
    of the returned documents. *)
Lemma semantic_hits_inv (question : str) (n : Z) :
  semantic_hits PDD_DATA client question n = []
  \/ exists collection docs more ds,
       client = Some collection
       /\ collection question n
          = inr {| documents := Some (docs :: more); distances := ds |}
       /\ scan_documents PDD_DATA ds 0 docs []
          = inr (semantic_hits PDD_DATA client question n).
Proof.
  unfold semantic_hits. destruct client as [collection|]; [|now left].
  destruct (collection question n) as [e|[docs0 ds]] eqn:Hq; [now left|].
  unfold collect_hits. simpl.
  destruct docs0 as [[|docs more]|]; [now left| |now left].
  destruct (scan_documents PDD_DATA ds 0 docs []) as [e|results] eqn:Hs;
    [now left|].
  right. exists collection, docs, more, ds. auto.
Qed.

Lemma simple_search_contract (question : str) (n : Z) :
  (0 <= n)%Z ->
  retrieval_contract PDD_DATA n (simple_search lower_cp PDD_DATA question n).
Proof.
  intros Hn. unfold retrieval_contract. split; [|split].
  - unfold simple_search. now apply slice_to_length.
  - unfold simple_search, slice_to. cbv zeta.
    destruct (0 <=? n)%Z; apply StronglySorted_take, sorted_desc_sorted.
  - intros v.
    transitivity (map rule (tied_at v (scan_rules lower_cp PDD_DATA (lower lower_cp question)))).
    + apply map_sublist. rewrite <- (sorted_desc_tied v (scan_rules _ _ _)).
      apply tied_at_sublist, simple_search_sublist.
    + transitivity (map rule (scan_rules lower_cp PDD_DATA (lower lower_cp question))).
      * apply map_sublist, tied_at_self_sublist.
      * rewrite scan_rules_hits. apply hits_rules_sublist.
Qed.

End RetrievalFacts.

Section SemanticFacts.

Variable PDD_DATA : list rule_doc.
Variable client : option (str -> Z -> exn + query_result).

Lemma scan_documents_keeps (ds : option (list (list Q))) (docs : list str) :
  forall i acc results,
    scan_documents PDD_DATA ds i docs acc = inr results ->
    forall m, m ∈ acc -> m ∈ results.
Proof.
  induction docs as [|doc docs IH]; intros i acc results; simpl.
  - now intros [= <-].
  - destruct (matching_rule PDD_DATA doc) as [r|].
    + destruct (distance_at ds i) as [e|d]; [discriminate|].
      intros H m Hm. eapply IH; [exact H|]. apply elem_of_app. now left.
    + apply IH.
Qed.

(** Every hit of the semantic branch stems from a returned document that
    contains a rule, and carries [1 - min(distance, 1.0)] for the distance
    reported at the position of that document. *)
Lemma scan_documents_elem (ds : option (list (list Q))) (docs : list str) :
  forall i acc results,
    scan_documents PDD_DATA ds i docs acc = inr results ->
    forall m, m ∈ results ->
      m ∈ acc
      \/ exists j doc d,
           docs !! j = Some doc
           /\ matching_rule PDD_DATA doc = Some (rule m)
           /\ distance_at ds (i + j) = inr d
           /\ relevance m = 1 - py_min d 1.
Proof.
  induction docs as [|doc docs IH]; intros i acc results; simpl.
  - intros [= <-] m Hm. now left.
  - destruct (matching_rule PDD_DATA doc) as [r|] eqn:Hr.
    + destruct (distance_at ds i) as [e|d] eqn:Hd; [discriminate|].
      intros H m Hm. destruct (IH _ _ _ H m Hm) as [Hacc|(j & doc' & d' & Hj & Hm' & Hd' & Hrel)].
      * apply elem_of_app in Hacc. destruct Hacc as [Hacc|Hnew]; [now left|].
        apply list_elem_of_singleton in Hnew. subst m. right.
        exists 0%nat, doc, d. rewrite Nat.add_0_r. simpl. auto.
      * right. exists (S j), doc', d'.
        replace (i + S j)%nat with (S i + j)%nat by lia. auto.
    + intros H m Hm. destruct (IH _ _ _ H m Hm) as [Hacc|(j & doc' & d' & Hj & Hm' & Hd' & Hrel)];
        [now left|].
      right. exists (S j), doc', d'.
      replace (i + S j)%nat with (S i + j)%nat by lia. auto.
Qed.

Lemma scan_documents_hit (ds : option (list (list Q))) (docs : list str) :
  forall i acc results,
    scan_documents PDD_DATA ds i docs acc = inr results ->
    forall j doc r d,
      docs !! j = Some doc ->
      matching_rule PDD_DATA doc = Some r ->
      distance_at ds (i + j) = inr d ->
      {| rule := r; relevance := 1 - py_min d 1 |} ∈ results.
Proof.
  induction docs as [|doc docs IH]; intros i acc results H j doc' r d Hj Hr Hd.
  - discriminate.
  - simpl in H. destruct j as [|j]; simpl in Hj.
    + injection Hj as ->. rewrite Hr in H. rewrite Nat.add_0_r in Hd.
      rewrite Hd in H. eapply scan_documents_keeps; [exact H|].
      apply elem_of_app. right. now apply list_elem_of_singleton.
    + replace (i + S j)%nat with (S i + j)%nat in Hd by lia.
      destruct (matching_rule PDD_DATA doc) as [r0|].
      * destruct (distance_at ds i) as [e|d0]; [discriminate|].
        eapply IH; eauto.
      * eapply IH; eauto.
Qed.

Lemma semantic_relevance_bounds (d : Q) :
  0 <= 1 - py_min d 1
  /\ (0 <= d -> 1 - py_min d 1 <= 1)
  /\ (d < 0 -> 1 < 1 - py_min d 1)
  /\ (1 <= d -> 1 - py_min d 1 == 0).
Proof.
  unfold py_min. destruct (Qltb 1 d) eqn:H.
  - apply Qltb_lt in H. repeat split; intros; try discriminate; try reflexivity.
    exfalso. apply (Qlt_irrefl 0).
    apply Qlt_trans with 1; [reflexivity|]. now apply Qlt_trans with d.
  - apply Qltb_ge in H. repeat split.
    + unfold Qminus. now rewrite <- Qle_minus_iff.
    + intros Hd. apply Qle_minus_iff.
      setoid_replace (1 + - (1 - d)) with d using relation Qeq by ring. exact Hd.
    + intros Hd. apply Qlt_minus_iff.
      setoid_replace (1 - d + - 1) with (- d) using relation Qeq by ring.
      apply Qlt_minus_iff in Hd. now rewrite Qplus_0_l in Hd.
    + intros Hd. assert (d == 1) as -> by now apply Qle_antisym. reflexivity.
Qed.

End SemanticFacts.

(** ** C2, C3, C8: the orchestrator *)

Section OrchestratorFacts.

Variable lower_cp : N -> list N.
Variable PDD_DATA : list rule_doc.
Variable CHROMA_AVAILABLE : bool.
Variable client : option (str -> Z -> exn + query_result).

(** C2 (amended). [search_pdd] always returns a list. The lexical fallback,
    for a non-negative [topN], returns at most [topN] matches, sorted by
    relevance in descending order, with matches of equal relevance in
    corpus order. The semantic branch returns the backend's hits as they
    come, at most one per returned document: the rules of the matches are
    the rules found in the returned documents, in the order of those
    documents, and nothing is sorted. *)
Theorem retrieval_order_by_branch (question : str) (n : Z)
    (st : service_state) :
  exists results st',
    search_pdd lower_cp PDD_DATA CHROMA_AVAILABLE client question n st
    = (inr results, st')
    /\ ((0 <= n)%Z ->
        retrieval_contract PDD_DATA n
          (simple_search lower_cp PDD_DATA question n))
    /\ (results = simple_search lower_cp PDD_DATA question n
        \/ exists collection docs more ds,
             CHROMA_AVAILABLE = true
             /\ client = Some collection
             /\ collection question n
                = inr {| documents := Some (docs :: more); distances := ds |}
             /\ results <> []
             /\ map rule results = omap (matching_rule PDD_DATA) docs
             /\ (length results <= length docs)%nat).
Proof.
  eexists _, _. split; [apply search_pdd_run|].
  split; [apply simple_search_contract|].
  unfold retrieved. destruct CHROMA_AVAILABLE; [|now left].
  destruct (semantic_hits_inv PDD_DATA client question n)
    as [Hnil|(collection & docs & more & ds & Hc & Hq & Hs)].
  - rewrite Hnil. now left.
  - destruct (semantic_hits PDD_DATA client question n) as [|m hits] eqn:Hh;
      [now left|].
    right. exists collection, docs, more, ds.
    apply scan_documents_rules in Hs.
    change (map rule [] ++ omap (matching_rule PDD_DATA) docs)
      with (omap (matching_rule PDD_DATA) docs) in Hs.
    repeat split; try assumption; try discriminate.
    rewrite <- (length_map rule), Hs. apply omap_length_le.
Qed.

(** C3. When the semantic retriever is absent (Chroma not importable or no
    client), when its query or the processing of its answer raises, or when
    it yields no hit, [search_pdd] raises nothing and returns what
    [simple_search] returns for the same corpus, question and [topN]. *)
Theorem retrieval_falls_back (question : str) (n : Z) (st : service_state) :
  CHROMA_AVAILABLE = false
  \/ client = None
  \/ (exists collection e,
        client = Some collection /\ collection question n = inl e)
  \/ (exists collection query_results e,
        client = Some collection
        /\ collection question n = inr query_results
        /\ collect_hits PDD_DATA query_results = inl e)
  \/ (exists st', chroma_search PDD_DATA client question n st = (inr [], st')) ->
  exists st',
    search_pdd lower_cp PDD_DATA CHROMA_AVAILABLE client question n st
    = (inr (simple_search lower_cp PDD_DATA question n), st').
Proof.
  intros H. eexists. rewrite search_pdd_run. f_equal. f_equal.
  unfold retrieved.
  destruct CHROMA_AVAILABLE; [|reflexivity].
  assert (semantic_hits PDD_DATA client question n = []) as ->; [|reflexivity].
  destruct H as [H|[H|[H|[H|H]]]].
  - discriminate.
  - unfold semantic_hits. now rewrite H.
  - destruct H as (collection & e & -> & Hq). unfold semantic_hits.
    now rewrite Hq.
  - destruct H as (collection & qr & e & -> & Hq & He). unfold semantic_hits.
    now rewrite Hq, He.
  - destruct H as (st' & H). rewrite chroma_search_run in H.
    now injection H.
Qed.

(** C8 (amended). Every match of the semantic branch has relevance
    [1 - min(distance, 1.0)], where [distance] is the one the backend
    reported at the position of the document (1.0 when it reported none).
    That relevance is never negative, and it lies between 0 and 1 for every
    distance that is not negative. *)
Theorem semantic_relevance_from_distance (question : str) (n : Z)
    (st st' : service_state) (results : list scored) (m : scored) :
  chroma_search PDD_DATA client question n st = (inr results, st') ->
  m ∈ results ->
  exists collection docs more ds i doc d,
    client = Some collection
    /\ collection question n
       = inr {| documents := Some (docs :: more); distances := ds |}
    /\ docs !! i = Some doc
    /\ matching_rule PDD_DATA doc = Some (rule m)
    /\ distance_at ds i = inr d
    /\ relevance m = 1 - py_min d 1
    /\ 0 <= relevance m
    /\ (0 <= d -> relevance m <= 1).
Proof.
  rewrite chroma_search_run. intros [= <- _] Hm.
  destruct (semantic_hits_inv PDD_DATA client question n)
    as [Hnil|(collection & docs & more & ds & Hc & Hq & Hs)].
  - rewrite Hnil in Hm. inversion Hm.
  - destruct (scan_documents_elem PDD_DATA ds docs _ _ _ Hs m Hm)
      as [Hacc|(j & doc & d & Hj & Hr & Hd & Hrel)]; [inversion Hacc|].
    exists collection, docs, more, ds, j, doc, d.
    destruct (semantic_relevance_bounds d) as (H0 & H1 & _ & _).
    rewrite Hrel. repeat split; assumption.
Qed.

End OrchestratorFacts.

(** C2, as stated, fails in the semantic branch: two hits of equal relevance
    come back in the backend's order, here against the corpus order. *)
Lemma semantic_ties_ignore_corpus_order :
  exists results st',
    search_pdd lower_cp_basic demo_corpus true (Some tie_backend)
      (lit "круг") 3 empty_state = (inr results, st')
    /\ ~ retrieval_contract demo_corpus 3 results.
Proof.
  eexists _, _. split; [vm_compute; reflexivity|].
  intros (_ & _ & Hties). specialize (Hties 0.6).
  assert (rule_6_2 <> rule_13_7) as Hne.
  { intros E. apply (f_equal id) in E. vm_compute in E. discriminate. }
  change ([rule_6_2; rule_13_7] `sublist_of` [rule_13_7; rule_6_2]) in Hties.
  apply sublist_cons_l in Hties.
  destruct Hties as (k1 & k2 & Hsplit & Hrest).
  destruct k1 as [|a [|b k1]]; simpl in Hsplit.
  - apply Hne. congruence.
  - assert (k2 = []) as -> by congruence.
    apply sublist_nil_r in Hrest. discriminate.
  - assert ([] = k1 ++ rule_6_2 :: k2) as Htail by congruence.
    destruct k1; discriminate.
Qed.

Lemma retrieval_order_by_branch_witness :
  exists results st',
    search_pdd lower_cp_basic demo_corpus false None
      (lit "Красный светофор на круге") 3 empty_state = (inr results, st')
    /\ map (fun m => id (rule m)) results = [lit "13.7"; lit "6.2"]
    /\ retrieval_contract demo_corpus 3 results.
Proof.
  destruct (retrieval_order_by_branch lower_cp_basic demo_corpus false None
              (lit "Красный светофор на круге") 3 empty_state)
    as (results & st' & Hrun & Hc & _).
  exists results, st'. split; [exact Hrun|].
  rewrite search_pdd_run in Hrun. injection Hrun as <- _.
  split; [vm_compute; reflexivity|].
  apply Hc. lia.
Defined.

Lemma retrieval_falls_back_witness :
  exists st',
    search_pdd lower_cp_basic demo_corpus true (Some failing_backend)
      (lit "Кто уступает на круге?") 3 empty_state
    = (inr (simple_search lower_cp_basic demo_corpus
              (lit "Кто уступает на круге?") 3), st').
Proof.
  apply (retrieval_falls_back lower_cp_basic demo_corpus true
           (Some failing_backend)).
  right. right. left. eexists _, _. split; reflexivity.
Defined.

(** C8, as stated, fails for a negative distance: the relevance exceeds 1. *)
Lemma negative_distance_exceeds_one :
  exists results st' m,
    chroma_search demo_corpus (Some negative_backend) (lit "круг") 3 empty_state
    = (inr results, st')
    /\ m ∈ results
    /\ ~ (0 <= relevance m /\ relevance m <= 1).
Proof.
  eexists _, _, _. split; [vm_compute; reflexivity|]. split.
  - apply list_elem_of_here.
  - intros [_ H]. vm_compute in H. apply H. reflexivity.
Qed.

Lemma semantic_relevance_from_distance_witness :
  exists (i : nat) (doc : str) (d : Q),
    [indexed_text rule_13_7; indexed_text rule_6_2] !! i = Some doc
    /\ matching_rule demo_corpus doc = Some rule_6_2
    /\ distance_at (Some [[1; 1.5]]) i = inr d
    /\ (0 : Q) = 1 - py_min d 1
    /\ (0 <= d -> (0 : Q) <= 1).
Proof.
  destruct (semantic_relevance_from_distance demo_corpus (Some far_backend)
              (lit "круг") 3 empty_state
              (with_log empty_state [SemanticQuery (lit "круг") 3])
              [{| rule := rule_13_7; relevance := 0 |};
               {| rule := rule_6_2; relevance := 0 |}]
              {| rule := rule_6_2; relevance := 0 |})
    as (collection & docs & more & ds & i & doc & d & Hc & Hq & Hi & Hr & Hd
        & Hrel & _ & Hle).
  - vm_compute. reflexivity.
  - apply list_elem_of_further, list_elem_of_here.
  - injection Hc as <-. injection Hq as <- _ <-.
    exists i, doc, d. auto.
Defined.

(** ** The query service *)

Section ServiceFacts.

Variable lower_cp : N -> list N.
Variable md5_hexdigest : list N -> str.
Variable PDD_DATA : list rule_doc.
Variable CHROMA_AVAILABLE : bool.
Variable client : option (str -> Z -> exn + query_result).
Variable openai_client : option (list str -> str -> exn + option str).

Local Abbreviation ask := (ask_question lower_cp md5_hexdigest PDD_DATA
                         CHROMA_AVAILABLE client openai_client).
Local Abbreviation found := (retrieved lower_cp PDD_DATA CHROMA_AVAILABLE client).
Local Abbreviation key_of := (get_cache_key lower_cp md5_hexdigest).

Lemma generate_run (context_parts : list str) (question : str)
    (st : service_state) :
  generate openai_client context_parts question st
  = (inr (generated_text openai_client context_parts question),
     with_log st (generation_events openai_client context_parts question)).
Proof.
  unfold generate, generated_text, generation_events, with_log.
  destruct openai_client as [create|].
  - unfold try_except, bind, log, lift, ret.
    destruct (create context_parts question); reflexivity.
  - unfold ret. rewrite app_nil_r. now destruct st.
Qed.

Lemma compose_answer_run (cache_key question : str)
    (search_results : list scored) (st : service_state) :
  compose_answer openai_client cache_key question search_results st
  = (inr (composed openai_client question search_results),
     {| answer_cache :=
          <[cache_key := composed openai_client question search_results]>
            (answer_cache st);
        cache_hits := cache_hits st;
        cache_misses := cache_misses st;
        pipeline_log :=
          pipeline_log st
          ++ composition_events openai_client question search_results |}).
Proof.
  unfold compose_answer, composed, composition_events.
  destruct search_results as [|m rest].
  - unfold bind, cache_store, ret. now rewrite app_nil_r.
  - unfold bind. rewrite generate_run. reflexivity.
Qed.

Lemma ask_rejects (question_data : str) (st : service_state) :
  invalid_input question_data ->
  exists detail, ask question_data st = (inl (HTTPException 400 detail), st).
Proof.
  unfold invalid_input, ask_question. intros [H|H].
  - rewrite H. eexists. reflexivity.
  - destruct (strip question_data) as [|c q] eqn:Hq; [simpl in H; lia|].
    apply Nat.ltb_lt in H. rewrite H. eexists. reflexivity.
Qed.

(** The only exception [get_cache_key] raises is the one of [encode]. *)
Lemma get_cache_key_raises (question : str) (e : exn) :
  key_of question = inl e -> e = UnicodeEncodeError.
Proof.
  unfold get_cache_key.
  destruct (encode (strip (lower lower_cp question))); [discriminate|].
  now intros [= <-].
Qed.

(** A question whose key cannot be computed: the exception of line 258
    leaves the handler before the counters and the [try] block. *)
Lemma ask_unencodable (question_data : str) (st : service_state) (e : exn) :
  ~ invalid_input question_data ->
  key_of (strip question_data) = inl e ->
  ask question_data st = (inl e, st).
Proof.
  unfold invalid_input, ask_question. intros Hv Hk.
  destruct (strip question_data) as [|c q] eqn:Hq; [tauto|].
  destruct (500 <? length (c :: q))%nat eqn:Hlen;
    [apply Nat.ltb_lt in Hlen; tauto|].
  unfold bind at 1. unfold lift. rewrite Hk. reflexivity.
Qed.

Lemma ask_hit (question_data : str) (st : service_state) (key : str)
    (cached : Answer) :
  ~ invalid_input question_data ->
  key_of (strip question_data) = inr key ->
  answer_cache st !! key = Some cached ->
  ask question_data st = (inr cached, after_hit st).
Proof.
  unfold invalid_input, ask_question. intros Hv Hk Hc.
  destruct (strip question_data) as [|c q] eqn:Hq; [tauto|].
  destruct (500 <? length (c :: q))%nat eqn:Hlen;
    [apply Nat.ltb_lt in Hlen; tauto|].
  unfold bind at 1. unfold lift. rewrite Hk.
  unfold bind at 1. unfold get_state. rewrite Hc. reflexivity.
Qed.

Lemma ask_miss (question_data : str) (st : service_state) (key : str) :
  ~ invalid_input question_data ->
  key_of (strip question_data) = inr key ->
  answer_cache st !! key = None ->
  ask question_data st
  = (inr (composed openai_client (strip question_data)
            (found (strip question_data) 3%Z)),
     after_miss st key
       (composed openai_client (strip question_data)
          (found (strip question_data) 3%Z))
       (retrieval_events CHROMA_AVAILABLE client (strip question_data) 3%Z
        ++ composition_events openai_client (strip question_data)
             (found (strip question_data) 3%Z))).
Proof.
  unfold invalid_input, ask_question. intros Hv Hk Hc.
  destruct (strip question_data) as [|c q] eqn:Hq; [tauto|].
  destruct (500 <? length (c :: q))%nat eqn:Hlen;
    [apply Nat.ltb_lt in Hlen; tauto|].
  unfold bind at 1. unfold lift. rewrite Hk.
  unfold bind at 1. unfold get_state. rewrite Hc.
  unfold bind at 1. unfold incr_cache_misses.
  unfold try_except, bind. rewrite search_pdd_run, compose_answer_run.
  unfold after_miss, with_log. simpl. now rewrite <- app_assoc.
Qed.

(** A valid question never ends in a 400. *)
Lemma ask_valid_not_400 (question_data : str) (st : service_state)
    (detail : str) :
  ~ invalid_input question_data ->
  (ask question_data st).1 <> inl (HTTPException 400 detail).
Proof.
  intros Hv.
  destruct (key_of (strip question_data)) as [e|key] eqn:Hk.
  - rewrite (ask_unencodable _ _ _ Hv Hk). simpl.
    rewrite (get_cache_key_raises _ _ Hk). discriminate.
  - destruct (answer_cache st !! key) as [cached|] eqn:Hc.
    + rewrite (ask_hit _ _ _ _ Hv Hk Hc). discriminate.
    + rewrite (ask_miss _ _ _ Hv Hk Hc). discriminate.
Qed.

Lemma invalid_input_dec (question_data : str) :
  invalid_input question_data \/ ~ invalid_input question_data.
Proof.
  unfold invalid_input. destruct (strip question_data) as [|c q]; [auto|].
  destruct (Nat.lt_ge_cases 500 (length (c :: q))) as [H|H]; [auto|].
  right. intros [H'|H']; [discriminate | lia].
Qed.

End ServiceFacts.

(** A boolean test of validity, for concrete questions. *)
Lemma valid_input_check (question_data : str) :
  match strip question_data with
  | [] => false
  | q => (length q <=? 500)%nat
  end = true ->
  ~ invalid_input question_data.
Proof.
  unfold invalid_input. destruct (strip question_data) as [|c q];
    [discriminate|].
  intros H [H'|H']; [discriminate|]. apply Nat.leb_le in H. lia.
Qed.

Section ServiceClaims.

Variable lower_cp : N -> list N.
Variable md5_hexdigest : list N -> str.
Variable PDD_DATA : list rule_doc.
Variable CHROMA_AVAILABLE : bool.
Variable client : option (str -> Z -> exn + query_result).
Variable openai_client : option (list str -> str -> exn + option str).

Local Abbreviation ask := (ask_question lower_cp md5_hexdigest PDD_DATA
                         CHROMA_AVAILABLE client openai_client).
Local Abbreviation found := (retrieved lower_cp PDD_DATA CHROMA_AVAILABLE client).
Local Abbreviation key_of := (get_cache_key lower_cp md5_hexdigest).

(** C4. [ask_question] fails with status 400 exactly when the question is
    empty after trimming or longer than 500 characters after trimming: an
    invalid question gets a 400, a valid one never does (it is answered
    whenever its cache key can be computed). The failure leaves the whole
    state as it was: nothing is cached, the hit and miss counters keep their
    values, and no pipeline stage (retrieval, semantic query, generation)
    has run. *)
Theorem invalid_input_rejected (question_data : str) (st : service_state) :
  (invalid_input question_data ->
   exists detail,
     ask question_data st = (inl (HTTPException 400 detail), st))
  /\ (~ invalid_input question_data ->
      (forall detail,
         (ask question_data st).1 <> inl (HTTPException 400 detail))
      /\ (forall key,
            key_of (strip question_data) = inr key ->
            exists result st', ask question_data st = (inr result, st'))).
Proof.
  split; [apply ask_rejects|].
  intros Hv. split; [intros detail; now apply ask_valid_not_400|].
  intros key Hk.
  destruct (answer_cache st !! key) as [cached|] eqn:Hc.
  - eexists _, _. eapply ask_hit; eassumption.
  - eexists _, _. eapply ask_miss; eassumption.
Qed.

(** C9 (amended). The 500-character limit bears on the trimmed question: a
    question whose trimmed form is non-empty and has at most 500 characters
    is never rejected as invalid input, whatever the length of the raw
    string; and when the cache key of the trimmed question can be computed,
    the question is answered, from the cache or, on a miss, by going through
    retrieval for the trimmed question. *)
Theorem limit_applies_after_trimming (question_data : str)
    (st : service_state) :
  strip question_data <> [] ->
  (length (strip question_data) <= 500)%nat ->
  (forall detail,
     (ask question_data st).1 <> inl (HTTPException 400 detail))
  /\ (forall key,
        key_of (strip question_data) = inr key ->
        exists result st',
          ask question_data st = (inr result, st')
          /\ (answer_cache st !! key = None ->
              result = composed openai_client (strip question_data)
                         (found (strip question_data) 3%Z)
              /\ exists later,
                   pipeline_log st'
                   = pipeline_log st
                     ++ Retrieve (strip question_data) 3 :: later)).
Proof.
  intros Hne Hlen.
  assert (~ invalid_input question_data) as Hv
    by (unfold invalid_input; intros [H|H]; [contradiction | lia]).
  split; [intros detail; now apply ask_valid_not_400|].
  intros key Hk.
  destruct (answer_cache st !! key) as [cached|] eqn:Hc.
  - eexists _, _. split; [eapply ask_hit; eassumption | discriminate].
  - eexists _, _. split; [eapply ask_miss; eassumption|].
    intros _. split; [reflexivity|]. simpl. eexists. reflexivity.
Qed.

(** C6. For a valid question that is not cached and for which retrieval
    yields no match, [ask_question] returns the fixed "not found" answer,
    with no sources and confidence 0.0, and stores exactly that answer in
    the cache under the key of the question. *)
Theorem no_match_answer_is_cached (question_data : str) (st : service_state)
    (key : str) :
  ~ invalid_input question_data ->
  key_of (strip question_data) = inr key ->
  answer_cache st !! key = None ->
  (search_pdd lower_cp PDD_DATA CHROMA_AVAILABLE client
     (strip question_data) 3 st).1 = inr [] ->
  exists st',
    ask question_data st = (inr not_found_answer, st')
    /\ sources not_found_answer = []
    /\ confidence not_found_answer = 0
    /\ answer_cache st' = <[key := not_found_answer]> (answer_cache st)
    /\ cache_misses st' = (cache_misses st + 1)%Z.
Proof.
  intros Hv Hk Hc Hs. rewrite search_pdd_run in Hs. simpl in Hs.
  injection Hs as Hs.
  eexists. rewrite (ask_miss _ _ _ _ _ _ _ _ _ Hv Hk Hc), Hs. simpl.
  repeat split; reflexivity.
Qed.

End ServiceClaims.

(** ** C5: the cache key *)

Lemma isspace_solid (x : N) :
  (33 <= x < 133)%N \/ (161 <= x < 5760)%N -> isspace x = false.
Proof.
  unfold isspace. intros [H|H];
    repeat match goal with
      | |- context [(?a <=? ?b)%N] =>
          destruct (N.leb_spec a b); try lia
      | |- context [(?a =? ?b)%N] =>
          destruct (N.eqb_spec a b); try lia
      end; reflexivity.
Qed.

(** The example case map leaves whitespace alone. *)
Lemma lower_cp_basic_blank (c : N) :
  isspace c = true -> Forall (fun c' => isspace c' = true) (lower_cp_basic c).
Proof.
  intros Hc. unfold lower_cp_basic.
  destruct ((65 <=? c) && (c <=? 90))%N eqn:H1;
    [|destruct ((1040 <=? c) && (c <=? 1071))%N eqn:H2;
      [|destruct ((1024 <=? c) && (c <=? 1039))%N eqn:H3;
        [|destruct (c =? 304)%N eqn:H4;
          [|repeat constructor; exact Hc]]]].
  1-3: exfalso;
       match goal with
       | H : (_ && _)%N = true |- _ =>
           apply andb_true_iff in H; destruct H as [Hlo Hhi];
           apply N.leb_le in Hlo, Hhi
       end;
       rewrite isspace_solid in Hc by lia; discriminate.
  exfalso. apply N.eqb_eq in H4. subst c. discriminate.
Qed.

Section KeyFacts.

Variable lower_cp : N -> list N.
Variable md5_hexdigest : list N -> str.
Hypothesis lower_blank :
  forall c, isspace c = true -> Forall (fun c' => isspace c' = true) (lower_cp c).


End KeyFacts.




(** ** C7, C10: the confidence *)

Lemma gather_fold (rs : list scored) (acc : gathered) :
  g_sources (fold_left gather_step rs acc) = g_sources acc ++ map source_of rs
  /\ g_total_relevance (fold_left gather_step rs acc)
     == g_total_relevance acc + fold_right Qplus 0 (map relevance rs).
Proof.
  revert acc. induction rs as [|r rs IH]; intros acc; simpl.
  - rewrite app_nil_r. split; [reflexivity | ring].
  - destruct (IH (gather_step acc r)) as [Hs Ht]. split.
    + rewrite Hs. simpl. now rewrite <- app_assoc.
    + rewrite Ht. simpl. ring.
Qed.

Lemma gather_sources (rs : list scored) :
  g_sources (gather rs) = map source_of rs.
Proof. apply (gather_fold rs). Qed.

Lemma gather_total (rs : list scored) :
  g_total_relevance (gather rs) == fold_right Qplus 0 (map relevance rs).
Proof.
  unfold gather. destruct (gather_fold rs
    {| g_sources := []; g_context_parts := []; g_total_relevance := 0 |})
    as [_ H].
  rewrite H. simpl. ring.
Qed.

Lemma sum_nonneg (xs : list Q) :
  Forall (fun x => 0 <= x) xs -> 0 <= fold_right Qplus 0 xs.
Proof.
  induction 1 as [|x xs Hx _ IH]; simpl; [apply Qle_refl|].
  now apply Qplus_nonneg.
Qed.

Lemma sum_zero (xs : list Q) :
  Forall (fun x => x == 0) xs -> fold_right Qplus 0 xs == 0.
Proof.
  induction 1 as [|x xs Hx _ IH]; simpl; [reflexivity|].
  rewrite Hx, IH. reflexivity.
Qed.

Lemma length_positive {A} (l : list A) :
  l <> [] -> 0 < inject_Z (Z.of_nat (length l)).
Proof.
  intros H. destruct l as [|a l]; [contradiction|].
  change 0 with (inject_Z 0). rewrite <- Zlt_Qlt. simpl length. lia.
Qed.

Lemma mean_nonneg (xs : list Q) :
  xs <> [] -> Forall (fun x => 0 <= x) xs -> 0 <= mean xs.
Proof.
  intros Hne Hpos. unfold mean. apply Qle_shift_div_l.
  - now apply length_positive.
  - rewrite Qmult_0_l. now apply sum_nonneg.
Qed.

Lemma mean_zero (xs : list Q) :
  Forall (fun x => x == 0) xs -> mean xs == 0.
Proof.
  intros H. unfold mean. rewrite (sum_zero xs H).
  unfold Qdiv. apply Qmult_0_l.
Qed.

Lemma clamp01_nonneg (x : Q) : 0 <= x -> py_min x 1 == clamp01 x.
Proof.
  intros H. unfold clamp01. rewrite py_min_Qmin.
  rewrite (Q.max_r 0 x H). reflexivity.
Qed.

Section ConfidenceFacts.

Variable lower_cp : N -> list N.
Variable PDD_DATA : list rule_doc.
Variable CHROMA_AVAILABLE : bool.
Variable client : option (str -> Z -> exn + query_result).

Lemma retrieved_nonneg (question : str) (n : Z) (m : scored) :
  m ∈ retrieved lower_cp PDD_DATA CHROMA_AVAILABLE client question n ->
  0 <= relevance m.
Proof.
  assert (m ∈ simple_search lower_cp PDD_DATA question n -> 0 <= relevance m)
    as Hlex.
  { intros Hm. apply simple_search_elem, scan_rules_elem in Hm.
    destruct Hm as (_ & Hpos & ->). now apply Qlt_le_weak, py_min_pos. }
  unfold retrieved. destruct CHROMA_AVAILABLE; [|exact Hlex].
  destruct (semantic_hits_inv PDD_DATA client question n)
    as [Hnil|(collection & docs & more & ds & Hc & Hq & Hs)].
  - rewrite Hnil. exact Hlex.
  - destruct (semantic_hits PDD_DATA client question n) as [|m0 hits];
      [exact Hlex|].
    intros Hm.
    destruct (scan_documents_elem PDD_DATA ds docs _ _ _ Hs m Hm)
      as [Hacc|(j & doc & d & _ & _ & _ & ->)]; [inversion Hacc|].
    apply semantic_relevance_bounds.
Qed.

Lemma composed_confidence
    (openai_client : option (list str -> str -> exn + option str))
    (question : str) (rs : list scored) :
  rs <> [] ->
  confidence (composed openai_client question rs)
  == Qmin (mean (map relevance rs)) 1.
Proof.
  intros Hne. destruct rs as [|r rs]; [contradiction|].
  unfold composed. cbv zeta. cbn [confidence].
  rewrite py_min_Qmin, gather_total. unfold mean.
  now rewrite length_map.
Qed.

End ConfidenceFacts.

(** C7. For a valid question that is not cached and whose retrieval yields
    at least one match, the confidence of the answer is the mean of the
    relevances of the matches (their sum divided by their number) clamped
    to the interval from 0 to 1; the generative client does not enter into
    it, so the confidence is the same whether generation is absent, fails
    or succeeds. *)
Theorem confidence_is_clamped_mean
    (lower_cp : N -> list N) (md5_hexdigest : list N -> str)
    (PDD_DATA : list rule_doc) (CHROMA_AVAILABLE : bool)
    (client : option (str -> Z -> exn + query_result))
    (openai_client openai_client' : option (list str -> str -> exn + option str))
    (question_data : str) (st : service_state) (key : str) :
  ~ invalid_input question_data ->
  get_cache_key lower_cp md5_hexdigest (strip question_data) = inr key ->
  answer_cache st !! key = None ->
  retrieved lower_cp PDD_DATA CHROMA_AVAILABLE client (strip question_data) 3
  <> [] ->
  exists result result' st1 st2,
    ask_question lower_cp md5_hexdigest PDD_DATA CHROMA_AVAILABLE client
      openai_client question_data st = (inr result, st1)
    /\ ask_question lower_cp md5_hexdigest PDD_DATA CHROMA_AVAILABLE client
         openai_client' question_data st = (inr result', st2)
    /\ confidence result' = confidence result
    /\ confidence result
       == clamp01 (mean (map relevance
            (retrieved lower_cp PDD_DATA CHROMA_AVAILABLE client
               (strip question_data) 3))).
Proof.
  intros Hv Hk Hc Hne. eexists _, _, _, _.
  split; [eapply ask_miss; eassumption|].
  split; [eapply ask_miss; eassumption|].
  set (rs := retrieved lower_cp PDD_DATA CHROMA_AVAILABLE client
               (strip question_data) 3) in *.
  split.
  - destruct rs; [contradiction | reflexivity].
  - rewrite composed_confidence by exact Hne.
    unfold clamp01. rewrite Q.max_r; [reflexivity|].
    apply mean_nonneg.
    + destruct rs; [contradiction | discriminate].
    + apply Forall_forall. intros x Hx.
      apply list_elem_of_In, in_map_iff in Hx.
      destruct Hx as (m & <- & Hm).
      apply (retrieved_nonneg lower_cp PDD_DATA CHROMA_AVAILABLE client
               (strip question_data) 3).
      now apply list_elem_of_In.
Qed.

Lemma distance_at_far (ds : option (list (list Q))) (k j : nat) :
  no_near_distance ds k -> (j < k)%nat ->
  exists d, distance_at ds j = inr d /\ 1 <= d.
Proof.
  unfold no_near_distance, distance_at. intros Hfar Hj.
  destruct ds as [[|row rest]|].
  - exists 1. split; [reflexivity | apply Qle_refl].
  - destruct Hfar as [Hlen Hrow].
    destruct (lookup_lt_is_Some_2 row j) as [d Hd]; [lia|].
    rewrite Hd. exists d. split; [reflexivity|].
    now apply (Forall_lookup_1 _ _ _ _ Hrow Hd).
  - exists 1. split; [reflexivity | apply Qle_refl].
Qed.

Section FarFacts.

Variable PDD_DATA : list rule_doc.

Lemma scan_documents_far (ds : option (list (list Q))) (k : nat) :
  no_near_distance ds k ->
  forall docs i acc,
    (i + length docs <= k)%nat ->
    exists results, scan_documents PDD_DATA ds i docs acc = inr results.
Proof.
  intros Hfar. induction docs as [|doc docs IH]; intros i acc Hlen; simpl.
  - eexists. reflexivity.
  - simpl in Hlen. destruct (matching_rule PDD_DATA doc) as [r|].
    + destruct (distance_at_far ds k i Hfar) as (d & -> & _); [lia|].
      apply IH. lia.
    + apply IH. lia.
Qed.

Lemma omap_matching_nonempty (docs : list str) :
  Exists (fun doc => matching_rule PDD_DATA doc <> None) docs ->
  omap (matching_rule PDD_DATA) docs <> [].
Proof.
  induction 1 as [doc docs H|doc docs _ IH]; cbn.
  - destruct (matching_rule PDD_DATA doc); [discriminate | contradiction].
  - destruct (matching_rule PDD_DATA doc); [discriminate | exact IH].
Qed.

End FarFacts.

(** C10. The semantic branch keeps matches of relevance 0. When the
    backend returns documents that contain rules of the corpus and reports
    for them only distances of at least 1.0, or no distances at all,
    [search_pdd] returns a non-empty list of matches that all have relevance
    0, and [ask_question] (valid question, not cached) answers with as many
    sources as there are matches, each of relevance 0, and confidence 0. *)
Theorem semantic_zero_relevance_reaches_answer
    (lower_cp : N -> list N) (md5_hexdigest : list N -> str)
    (PDD_DATA : list rule_doc)
    (collection : str -> Z -> exn + query_result)
    (openai_client : option (list str -> str -> exn + option str))
    (question_data : str) (st : service_state) (key : str)
    (docs : list str) (more : list (list str)) (ds : option (list (list Q))) :
  collection (strip question_data) 3%Z
  = inr {| documents := Some (docs :: more); distances := ds |} ->
  no_near_distance ds (length docs) ->
  Exists (fun doc => matching_rule PDD_DATA doc <> None) docs ->
  ~ invalid_input question_data ->
  get_cache_key lower_cp md5_hexdigest (strip question_data) = inr key ->
  answer_cache st !! key = None ->
  exists results result st',
    (search_pdd lower_cp PDD_DATA true (Some collection)
       (strip question_data) 3 st).1 = inr results
    /\ results <> []
    /\ Forall (fun m => relevance m == 0) results
    /\ ask_question lower_cp md5_hexdigest PDD_DATA true (Some collection)
         openai_client question_data st = (inr result, st')
    /\ sources result = map source_of results
    /\ sources result <> []
    /\ Forall (fun s => src_relevance s == 0) (sources result)
    /\ confidence result == 0.
Proof.
  intros Hq Hfar Hex Hv Hk Hc.
  destruct (scan_documents_far PDD_DATA ds (length docs) Hfar docs 0 [])
    as [results Hs]; [simpl; lia|].
  assert (semantic_hits PDD_DATA (Some collection) (strip question_data) 3
          = results) as Hsem.
  { unfold semantic_hits, collect_hits. rewrite Hq. simpl. now rewrite Hs. }
  assert (results <> []) as Hne.
  { pose proof (scan_documents_rules PDD_DATA ds docs _ _ _ Hs) as Hr.
    intros ->. simpl in Hr. symmetry in Hr.
    now apply (omap_matching_nonempty PDD_DATA docs Hex). }
  assert (retrieved lower_cp PDD_DATA true (Some collection)
            (strip question_data) 3 = results) as Hret.
  { unfold retrieved. rewrite Hsem. destruct results; [contradiction|reflexivity]. }
  assert (Forall (fun m => relevance m == 0) results) as Hzero.
  { apply Forall_forall. intros m Hm.
    destruct (scan_documents_elem PDD_DATA ds docs _ _ _ Hs m Hm)
      as [Hacc|(j & doc & d & Hj & _ & Hd & ->)]; [inversion Hacc|].
    apply lookup_lt_Some in Hj.
    destruct (distance_at_far ds (length docs) j Hfar Hj) as (d' & Hd' & Hge).
    simpl in Hd. rewrite Hd in Hd'. injection Hd' as <-.
    now apply semantic_relevance_bounds. }
  exists results, (composed openai_client (strip question_data) results).
  eexists.
  split; [rewrite search_pdd_run, Hret; reflexivity|].
  split; [exact Hne|]. split; [exact Hzero|].
  split; [rewrite (ask_miss _ _ _ _ _ _ _ _ _ Hv Hk Hc), Hret; reflexivity|].
  assert (sources (composed openai_client (strip question_data) results)
          = map source_of results) as Hsrc.
  { destruct results; [contradiction|]. unfold composed. cbv zeta.
    cbn [sources]. apply gather_sources. }
  split; [exact Hsrc|]. rewrite Hsrc. split; [|split].
  - destruct results; [contradiction | discriminate].
  - apply Forall_fmap. exact Hzero.
  - rewrite composed_confidence by exact Hne.
    rewrite mean_zero; [reflexivity|].
    apply Forall_fmap. exact Hzero.
Qed.

Lemma semantic_zero_relevance_reaches_answer_witness :
  exists results result st',
    (search_pdd lower_cp_basic demo_corpus true (Some far_backend)
       (lit "круг") 3 empty_state).1 = inr results
    /\ results <> []
    /\ Forall (fun m => relevance m == 0) results
    /\ ask_question lower_cp_basic plain_key demo_corpus true (Some far_backend)
         None (lit " круг ") empty_state = (inr result, st')
    /\ sources result = map source_of results
    /\ sources result <> []
    /\ Forall (fun s => src_relevance s == 0) (sources result)
    /\ confidence result == 0.
Proof.
  apply (semantic_zero_relevance_reaches_answer lower_cp_basic plain_key
           demo_corpus far_backend None (lit " круг ") empty_state
           (plain_key (flat_map utf8_bytes (lit "круг")))
           [indexed_text rule_13_7; indexed_text rule_6_2] []
           (Some [[1; 1.5]])).
  - reflexivity.
  - split; [simpl; lia|]. repeat constructor; discriminate.
  - left. vm_compute. discriminate.
  - apply valid_input_check. vm_compute. reflexivity.
  - vm_compute. reflexivity.
  - reflexivity.
Defined.

(** ** The claims at concrete inputs *)

Lemma relevance_scorer_as_specified_witness :
  exists m,
    m ∈ simple_search lower_cp_basic demo_corpus (lit "Кто уступает на круге?") 3
    /\ rule m = rule_13_7
    /\ relevance m == 1
    /\ relevance m
       == spec_score lower_cp_basic (lit "Кто уступает на круге?") rule_13_7
    /\ ~ spec_score lower_cp_basic (lit "Кто уступает на круге?") rule_13_7 == 0.
Proof.
  destruct (relevance_scorer_as_specified lower_cp_basic demo_corpus
              (lit "Кто уступает на круге?")) as (_ & Hranked & _).
  exists {| rule := rule_13_7; relevance := 1.000 |}.
  assert ({| rule := rule_13_7; relevance := 1.000 |}
          ∈ simple_search lower_cp_basic demo_corpus
              (lit "Кто уступает на круге?") 3) as Hin
    by (vm_compute; apply list_elem_of_here).
  destruct (Hranked 3%Z _ Hin) as (_ & Hscore & Hnz).
  repeat split; try assumption; reflexivity.
Defined.

Lemma invalid_input_rejected_witness :
  (exists detail,
     ask_question lower_cp_basic plain_key demo_corpus false None None
       (lit "   ") empty_state = (inl (HTTPException 400 detail), empty_state))
  /\ (exists detail,
        ask_question lower_cp_basic plain_key demo_corpus false None None
          (replicate 501 97%N) empty_state
        = (inl (HTTPException 400 detail), empty_state))
  /\ (forall detail,
        (ask_question lower_cp_basic plain_key demo_corpus false None None
           (replicate 500 97%N) empty_state).1
        <> inl (HTTPException 400 detail)).
Proof.
  split; [|split].
  - apply (proj1 (invalid_input_rejected lower_cp_basic plain_key demo_corpus
                    false None None (lit "   ") empty_state)).
    left. reflexivity.
  - apply (proj1 (invalid_input_rejected lower_cp_basic plain_key demo_corpus
                    false None None (replicate 501 97%N) empty_state)).
    right. apply Nat.ltb_lt. vm_compute. reflexivity.
  - apply (proj2 (invalid_input_rejected lower_cp_basic plain_key demo_corpus
                    false None None (replicate 500 97%N) empty_state)).
    apply valid_input_check. vm_compute. reflexivity.
Defined.

(** C9, as stated, fails for a question that UTF-8 cannot encode: a lone
    surrogate passes both checks of the validation, yet the question is not
    answered and retrieval is never reached. *)
Lemma lone_surrogate_is_not_answered :
  strip [55296%N] <> []
  /\ (length (strip [55296%N]) <= 500)%nat
  /\ ask_question lower_cp_basic plain_key demo_corpus false None None
       [55296%N] empty_state = (inl UnicodeEncodeError, empty_state)
  /\ ~ (exists result st',
          ask_question lower_cp_basic plain_key demo_corpus false None None
            [55296%N] empty_state = (inr result, st')).
Proof.
  split; [vm_compute; discriminate|].
  split; [vm_compute; lia|].
  assert (ask_question lower_cp_basic plain_key demo_corpus false None None
            [55296%N] empty_state = (inl UnicodeEncodeError, empty_state)) as Hrun.
  { apply ask_unencodable; [apply valid_input_check|]; reflexivity. }
  split; [exact Hrun|].
  intros (result & st' & H). rewrite Hrun in H. discriminate.
Qed.

Lemma limit_applies_after_trimming_witness :
  (500 < length (replicate 600 32%N ++ lit "круг"))%nat
  /\ (forall detail,
        (ask_question lower_cp_basic plain_key demo_corpus false None None
           (replicate 600 32%N ++ lit "круг") empty_state).1
        <> inl (HTTPException 400 detail))
  /\ exists result st',
       ask_question lower_cp_basic plain_key demo_corpus false None None
         (replicate 600 32%N ++ lit "круг") empty_state = (inr result, st')
       /\ exists later,
            pipeline_log st' = Retrieve (lit "круг") 3 :: later.
Proof.
  split; [apply Nat.ltb_lt; vm_compute; reflexivity|].
  destruct (limit_applies_after_trimming lower_cp_basic plain_key demo_corpus
              false None None (replicate 600 32%N ++ lit "круг") empty_state)
    as (Hnot & Hrun).
  - vm_compute. discriminate.
  - apply Nat.leb_le. vm_compute. reflexivity.
  - split; [exact Hnot|].
    destruct (Hrun (plain_key (flat_map utf8_bytes (lit "круг"))))
      as (result & st' & Hask & Hmiss); [vm_compute; reflexivity|].
    exists result, st'. split; [exact Hask|].
    destruct Hmiss as (_ & later & Hlog); [reflexivity|].
    exists later. exact Hlog.
Defined.

Lemma no_match_answer_is_cached_witness :
  exists st',
    ask_question lower_cp_basic plain_key demo_corpus false None None
      (lit "xyz") empty_state = (inr not_found_answer, st')
    /\ sources not_found_answer = []
    /\ confidence not_found_answer = 0
    /\ answer_cache st' = <[lit "xyz" := not_found_answer]> ∅
    /\ cache_misses st' = 1%Z.
Proof.
  apply (no_match_answer_is_cached lower_cp_basic plain_key demo_corpus
           false None None (lit "xyz") empty_state (lit "xyz")).
  - apply valid_input_check. vm_compute. reflexivity.
  - reflexivity.
  - reflexivity.
  - vm_compute. reflexivity.
Defined.

Lemma confidence_is_clamped_mean_witness :
  exists result result' st1 st2,
    ask_question lower_cp_basic plain_key demo_corpus false None None
      (lit "Красный светофор") empty_state = (inr result, st1)
    /\ ask_question lower_cp_basic plain_key demo_corpus false None
         (Some (fun _ _ => inr (Some (lit "См. пункт 6.2"))))
         (lit "Красный светофор") empty_state = (inr result', st2)
    /\ confidence result' = confidence result
    /\ confidence result
       == clamp01 (mean (map relevance
            (retrieved lower_cp_basic demo_corpus false None
               (lit "Красный светофор") 3))).
Proof.
  apply (confidence_is_clamped_mean lower_cp_basic plain_key demo_corpus
           false None None
           (Some (fun _ _ => inr (Some (lit "См. пункт 6.2"))))
           (lit "Красный светофор") empty_state
           (plain_key (flat_map utf8_bytes (lit "красный светофор")))).
  - apply valid_input_check. vm_compute. reflexivity.
  - vm_compute. reflexivity.
  - reflexivity.
  - vm_compute. discriminate.
Defined.

Example confidence_demo :
  exists result st',
    ask_question lower_cp_basic plain_key demo_corpus false None None
      (lit "Красный светофор") empty_state = (inr result, st')
    /\ confidence result == 0.8
    /\ map src_id (sources result) = [lit "6.2"].
Proof.
  eexists _, _.
  split; [eapply ask_miss; [apply valid_input_check | vm_compute |]; reflexivity|].
  split; vm_compute; reflexivity.
Qed.

(** * Further properties of the lexical scorer *)

Section LexicalExtras.

Variable lower_cp : N -> list N.
Variable PDD_DATA : list rule_doc.

(** X1. Every match [simple_search] returns has a relevance that is
    strictly positive and at most 1. *)
Theorem lexical_relevance_in_unit_interval (question : str) (n : Z)
    (m : scored) :
  m ∈ simple_search lower_cp PDD_DATA question n ->
  0 < relevance m /\ relevance m <= 1.
Proof.
  intros Hm. apply simple_search_elem, scan_rules_elem in Hm.
  destruct Hm as (_ & Hpos & ->). split.
  - now apply py_min_pos.
  - apply py_min_le_r.
Qed.

Lemma found_keyword_counts (q_lower : str) (kws : list str) (k : str) :
  k ∈ kws -> contains (lower lower_cp k) q_lower = true ->
  (1 <= length (List.filter (fun k => contains (lower lower_cp k) q_lower) kws))%nat.
Proof.
  intros Hk Hfound. apply list_elem_of_In in Hk.
  assert (In k (List.filter (fun k => contains (lower lower_cp k) q_lower) kws))
    as Hin by (apply filter_In; auto).
  destruct (List.filter _ kws); [inversion Hin | simpl; lia].
Qed.

Lemma found_keyword_relevance (q_lower : str) (d : rule_doc) (k : str) :
  k ∈ keywords d -> contains (lower lower_cp k) q_lower = true ->
  0.3 <= rule_relevance lower_cp q_lower d.
Proof.
  intros Hk Hfound. rewrite rule_relevance_sum.
  pose proof (found_keyword_counts q_lower (keywords d) k Hk Hfound) as Hn.
  set (n := length _) in *.
  assert (0.3 <= 0.3 * inject_Z (Z.of_nat n)) as H1.
  { setoid_replace 0.3 with (0.3 * 1) using relation Qeq at 1 by ring.
    apply Qmult_le_l; [reflexivity|].
    change 1 with (inject_Z 1). rewrite <- Zle_Qle. lia. }
  assert (forall (b : bool) (x : Q), 0 <= x -> 0 <= (if b then x else 0))
    as Hif by (intros [] x Hx; [exact Hx | apply Qle_refl]).
  apply Qle_trans with (0.3 * inject_Z (Z.of_nat n) + 0 + 0).
  - setoid_replace (0.3 * inject_Z (Z.of_nat n) + 0 + 0)
      with (0.3 * inject_Z (Z.of_nat n)) using relation Qeq by ring.
    exact H1.
  - repeat apply Qplus_le_compat; try apply Qle_refl; apply Hif; discriminate.
Qed.

(** X2. A rule one of whose keywords occurs (lowercased) in the lowercased
    question is always ranked, with relevance at least 0.3, when the ranking
    is not cut short. The test is substring containment, so a rule that
    lists an empty keyword is ranked for every question. *)
Theorem keyword_hit_is_ranked (question : str) (d : rule_doc) (k : str) :
  d ∈ PDD_DATA ->
  k ∈ keywords d ->
  k = [] \/ contains (lower lower_cp k) (lower lower_cp question) = true ->
  exists m,
    m ∈ simple_search lower_cp PDD_DATA question (Z.of_nat (length PDD_DATA))
    /\ rule m = d
    /\ 0.3 <= relevance m.
Proof.
  intros Hd Hk Hfound.
  assert (contains (lower lower_cp k) (lower lower_cp question) = true) as Hc.
  { destruct Hfound as [->|H]; [|exact H].
    simpl. now destruct (lower lower_cp question). }
  pose proof (found_keyword_relevance _ d k Hk Hc) as Hrel.
  exists {| rule := d;
            relevance :=
              py_min (rule_relevance lower_cp (lower lower_cp question) d) 1 |}.
  split; [|split; [reflexivity|]].
  - unfold simple_search, slice_to. cbv zeta.
    destruct (0 <=? Z.of_nat (length PDD_DATA))%Z eqn:Hle;
      [|apply Z.leb_gt in Hle; lia].
    rewrite Nat2Z.id, take_ge.
    + rewrite sorted_desc_perm. apply scan_rules_elem. simpl.
      repeat split; try assumption.
      apply Qlt_le_trans with 0.3; [reflexivity | exact Hrel].
    + rewrite sorted_desc_perm, scan_rules_hits.
      pose proof (sublist_length _ _
                    (hits_rules_sublist lower_cp (lower lower_cp question) PDD_DATA))
        as Hlen.
      now rewrite length_map in Hlen.
  - simpl. rewrite py_min_Qmin. apply Q.min_glb; [exact Hrel | discriminate].
Qed.

Lemma hits_length (q_lower : str) (rules : list rule_doc) :
  length (flat_map (hit_of lower_cp q_lower) rules)
  = length (List.filter (fun d => Qltb 0 (rule_relevance lower_cp q_lower d)) rules).
Proof.
  induction rules as [|r rules IH]; simpl; [reflexivity|].
  unfold hit_of at 1.
  destruct (Qltb 0 (rule_relevance lower_cp q_lower r)); simpl; now rewrite IH.
Qed.

(** X3. How many matches [simple_search] returns: with [total] the number
    of rules of positive relevance, a non-negative [n_results] gives
    [min(n_results, total)] matches, and a negative one gives
    [max(0, total + n_results)]: the slice then drops matches from the end
    of the ranking instead of limiting it. *)
Theorem lexical_result_size (question : str) (n : Z) :
  Z.of_nat (length (simple_search lower_cp PDD_DATA question n))
  = let total :=
      Z.of_nat (length (List.filter
        (fun d => Qltb 0 (rule_relevance lower_cp (lower lower_cp question) d))
        PDD_DATA)) in
    if (0 <=? n)%Z then Z.min n total else Z.max 0 (total + n).
Proof.
  cbv zeta. rewrite <- hits_length, <- scan_rules_hits.
  rewrite <- (Permutation_length
                (sorted_desc_perm
                   (scan_rules lower_cp PDD_DATA (lower lower_cp question)))).
  unfold simple_search, slice_to. cbv zeta.
  set (ranking := sorted_desc _).
  destruct (0 <=? n)%Z eqn:Hn; rewrite length_take.
  - apply Z.leb_le in Hn. lia.
  - apply Z.leb_gt in Hn. lia.
Qed.

End LexicalExtras.

Lemma lexical_relevance_in_unit_interval_witness :
  0 < 0.800 /\ 0.800 <= 1.
Proof.
  apply (lexical_relevance_in_unit_interval lower_cp_basic demo_corpus
           (lit "Красный светофор") 3
           {| rule := rule_6_2; relevance := 0.800 |}).
  vm_compute. apply list_elem_of_here.
Defined.

Lemma keyword_hit_is_ranked_witness :
  exists m,
    m ∈ simple_search lower_cp_basic [rule_13_7; rule_blank_keyword]
          (lit "xyz") 2
    /\ rule m = rule_blank_keyword
    /\ 0.3 <= relevance m.
Proof.
  apply (keyword_hit_is_ranked lower_cp_basic [rule_13_7; rule_blank_keyword]
           (lit "xyz") rule_blank_keyword []).
  - apply list_elem_of_further, list_elem_of_here.
  - apply list_elem_of_here.
  - now left.
Defined.

Example negative_bound_drops_from_the_end :
  map (fun m => id (rule m))
    (simple_search lower_cp_basic demo_corpus (lit "Красный светофор на круге") (-1))
  = [lit "13.7"]
  /\ length (simple_search lower_cp_basic demo_corpus
               (lit "Красный светофор на круге") 3) = 2%nat.
Proof. split; vm_compute; reflexivity. Qed.

(** * Further properties of the semantic branch *)

Lemma contains_unfold (sub s : str) :
  contains sub s
  = startswith sub s
    || match s with
       | [] => false
       | _ :: s' => contains sub s'
       end.
Proof. destruct s; reflexivity. Qed.

Lemma startswith_app (sub rest : str) : startswith sub (sub ++ rest) = true.
Proof.
  induction sub as [|a sub IH]; simpl; [reflexivity|].
  now rewrite N.eqb_refl.
Qed.

Lemma contains_infix (pre sub post : str) :
  contains sub (pre ++ sub ++ post) = true.
Proof.
  induction pre as [|a pre IH]; simpl app.
  - rewrite contains_unfold, startswith_app. reflexivity.
  - rewrite contains_unfold, IH. apply orb_true_r.
Qed.

Lemma indexed_text_has_title (r : rule_doc) :
  contains (title r) (indexed_text r) = true.
Proof. apply (contains_infix [] (title r)). Qed.

Lemma indexed_text_has_content (r : rule_doc) :
  contains (content r) (indexed_text r) = true.
Proof.
  unfold indexed_text.
  replace (title r ++ lit ". " ++ content r)
    with ((title r ++ lit ". ") ++ content r ++ [])
    by (rewrite app_nil_r, <- app_assoc; reflexivity).
  apply contains_infix.
Qed.

Section SemanticExtras.

Variable lower_cp : N -> list N.
Variable PDD_DATA : list rule_doc.

Lemma scan_documents_index_error (ds : option (list (list Q)))
    (docs : list str) :
  forall i acc j doc,
    docs !! j = Some doc ->
    matching_rule PDD_DATA doc <> None ->
    distance_at ds (i + j) = inl IndexError ->
    exists e, scan_documents PDD_DATA ds i docs acc = inl e.
Proof.
  induction docs as [|doc0 docs IH]; intros i acc j doc Hj Hm Hd;
    [discriminate|].
  simpl. destruct j as [|j]; simpl in Hj.
  - injection Hj as ->. rewrite Nat.add_0_r in Hd.
    destruct (matching_rule PDD_DATA doc); [|contradiction].
    rewrite Hd. eexists. reflexivity.
  - replace (i + S j)%nat with (S i + j)%nat in Hd by lia.
    destruct (matching_rule PDD_DATA doc0).
    + destruct (distance_at ds i); [eexists; reflexivity|].
      eapply IH; eauto.
    + eapply IH; eauto.
Qed.

(** X4. When the backend reports fewer distances than the position of a
    returned document that contains a rule, the lookup of the distance
    raises inside [chroma_search]; the hits gathered so far are dropped with
    it, [chroma_search] returns the empty list and [search_pdd] answers with
    the lexical ranking. *)
Theorem short_distances_discard_semantic_hits
    (collection : str -> Z -> exn + query_result)
    (question : str) (n : Z) (st : service_state)
    (docs : list str) (more : list (list str))
    (row : list Q) (rest : list (list Q)) (i : nat) (doc : str) :
  collection question n
  = inr {| documents := Some (docs :: more);
           distances := Some (row :: rest) |} ->
  docs !! i = Some doc ->
  matching_rule PDD_DATA doc <> None ->
  (length row <= i)%nat ->
  (chroma_search PDD_DATA (Some collection) question n st).1 = inr []
  /\ (search_pdd lower_cp PDD_DATA true (Some collection) question n st).1
     = inr (simple_search lower_cp PDD_DATA question n).
Proof.
  intros Hq Hi Hm Hlen.
  assert (semantic_hits PDD_DATA (Some collection) question n = []) as Hsem.
  { unfold semantic_hits, collect_hits. rewrite Hq. simpl.
    destruct (scan_documents_index_error (Some (row :: rest)) docs 0 [] i doc
                Hi Hm) as [e ->]; [|reflexivity].
    simpl. now rewrite (lookup_ge_None_2 row i Hlen). }
  split.
  - now rewrite chroma_search_run, Hsem.
  - rewrite search_pdd_run. unfold retrieved. now rewrite Hsem.
Qed.

Lemma matching_rule_found (doc : str) (r : rule_doc) :
  r ∈ PDD_DATA ->
  contains (content r) doc || contains (title r) doc = true ->
  exists r',
    matching_rule PDD_DATA doc = Some r'
    /\ r' ∈ PDD_DATA
    /\ contains (content r') doc || contains (title r') doc = true.
Proof.
  intros Hr Hm. unfold matching_rule.
  destruct (List.find _ PDD_DATA) as [r'|] eqn:Hf.
  - apply find_some in Hf. destruct Hf as [Hin Hp].
    exists r'. rewrite list_elem_of_In. auto.
  - apply list_elem_of_In in Hr.
    pose proof (find_none _ _ Hf r Hr) as Hnone. simpl in Hnone.
    rewrite Hm in Hnone. discriminate.
Qed.

(** X5. Round trip with the index: the text [prepare_documents] stores for
    a rule of the corpus is always attributed by the matching loop of
    [chroma_search] to some rule of the corpus whose content or title it
    contains (the first such rule in corpus order), and to that very rule
    when it is the only rule whose content or title occurs in the text. *)
Theorem indexed_text_maps_back (r : rule_doc) :
  r ∈ PDD_DATA ->
  exists r',
    matching_rule PDD_DATA (indexed_text r) = Some r'
    /\ r' ∈ PDD_DATA
    /\ contains (content r') (indexed_text r)
       || contains (title r') (indexed_text r) = true
    /\ ((forall r0,
           r0 ∈ PDD_DATA ->
           contains (content r0) (indexed_text r)
           || contains (title r0) (indexed_text r) = true ->
           r0 = r) ->
        r' = r).
Proof.
  intros Hr.
  destruct (matching_rule_found (indexed_text r) r Hr) as (r' & Hf & Hin & Hp).
  { rewrite indexed_text_has_content. reflexivity. }
  exists r'. repeat split; try assumption.
  intros Honly. now apply Honly.
Qed.

End SemanticExtras.

Lemma map_lookup_Some {A B} (f : A -> B) (l : list A) (i : nat) (x : A) :
  l !! i = Some x -> map f l !! i = Some (f x).
Proof.
  revert i. induction l as [|a l IH]; intros [|i] H; try discriminate; simpl in *.
  - now injection H as ->.
  - now apply IH.
Qed.

Lemma prepare_fold (rules : list typed_rule)
    (ids documents : list str) (metadatas : list metadata) :
  fold_left prepare_step rules (ids, documents, metadatas)
  = (ids ++ map (fun r => id (base r)) rules,
     documents ++ map (fun r => indexed_text (base r)) rules,
     metadatas
     ++ map (fun r =>
               {| md_section := section (base r);
                  md_type := rule_type r;
                  md_keywords := join (lit ", ") (keywords (base r));
                  md_title := title (base r) |}) rules).
Proof.
  revert ids documents metadatas.
  induction rules as [|r rules IH]; intros ids documents metadatas; simpl.
  - now rewrite !app_nil_r.
  - rewrite IH, <- !app_assoc. reflexivity.
Qed.

(** X6. [prepare_documents] returns three lists aligned with the rules it
    was given: each has one entry per rule, in order; the identifier is the
    rule's id, the metadata carries the rule's title and type, and the
    document contains both the title and the content of the rule. *)
Theorem prepare_documents_aligned (rules : list typed_rule) :
  length (prepare_documents rules).1.1 = length rules
  /\ length (prepare_documents rules).1.2 = length rules
  /\ length (prepare_documents rules).2 = length rules
  /\ forall i r,
       rules !! i = Some r ->
       (prepare_documents rules).1.1 !! i = Some (id (base r))
       /\ exists doc md,
            (prepare_documents rules).1.2 !! i = Some doc
            /\ contains (title (base r)) doc = true
            /\ contains (content (base r)) doc = true
            /\ (prepare_documents rules).2 !! i = Some md
            /\ md_title md = title (base r)
            /\ md_type md = rule_type r.
Proof.
  unfold prepare_documents. rewrite prepare_fold. simpl.
  rewrite !length_map. split; [reflexivity|]. split; [reflexivity|].
  split; [reflexivity|]. intros i r Hi. split.
  - now apply (map_lookup_Some (fun r => id (base r))).
  - eexists _, _.
    split; [apply (map_lookup_Some (fun r => indexed_text (base r))), Hi|].
    split; [apply indexed_text_has_title|].
    split; [apply indexed_text_has_content|].
    split; [apply (map_lookup_Some _ _ _ _ Hi)|].
    split; reflexivity.
Qed.

(** * Further properties of the query service *)

Lemma gather_context_fold (rs : list scored) (acc : gathered) :
  g_context_parts (fold_left gather_step rs acc)
  = g_context_parts acc
    ++ map (fun m => title (rule m) ++ lit ": " ++ content (rule m)) rs.
Proof.
  revert acc. induction rs as [|r rs IH]; intros acc; simpl.
  - now rewrite app_nil_r.
  - rewrite IH. simpl. now rewrite <- app_assoc.
Qed.

Section ServiceExtras.

Variable lower_cp : N -> list N.
Variable md5_hexdigest : list N -> str.
Variable PDD_DATA : list rule_doc.
Variable CHROMA_AVAILABLE : bool.
Variable client : option (str -> Z -> exn + query_result).

Local Abbreviation ask_with := (ask_question lower_cp md5_hexdigest PDD_DATA
                                  CHROMA_AVAILABLE client).
Local Abbreviation found := (retrieved lower_cp PDD_DATA CHROMA_AVAILABLE client).
Local Abbreviation key_of := (get_cache_key lower_cp md5_hexdigest).

Lemma ask_rejects_detail
    (openai_client : option (list str -> str -> exn + option str))
    (question_data : str) (st : service_state) :
  invalid_input question_data ->
  ask_with openai_client question_data st
  = (inl (HTTPException 400
            (match strip question_data with
             | [] => lit "Question cannot be empty"
             | _ => lit "Question too long (max 500 chars)"
             end)), st).
Proof.
  unfold invalid_input, ask_question. intros [H|H].
  - rewrite H. reflexivity.
  - destruct (strip question_data) as [|c q] eqn:Hq; [simpl in H; lia|].
    apply Nat.ltb_lt in H. rewrite H. reflexivity.
Qed.

Lemma composed_without_completion
    (create : list str -> str -> exn + option str)
    (question : str) (rs : list scored) :
  (forall ctx q,
     match create ctx q with
     | inr (Some (_ :: _)) => False
     | _ => True
     end) ->
  composed (Some create) question rs = composed None question rs.
Proof.
  intros Hnone. unfold composed. destruct rs as [|r rs]; [reflexivity|].
  cbv zeta. unfold generated_text.
  specialize (Hnone (g_context_parts (gather (r :: rs))) question).
  destruct (create _ question) as [e|[[|c text]|]];
    try reflexivity; contradiction.
Qed.

(** X7. A generative client that raises, returns no text or returns the
    empty text changes nothing for the caller: the response and the cache
    are those obtained with no generative client at all, and for a fresh
    question with matches the text is the fixed prefix followed by the
    "title: content" lines of the matches. *)
Theorem failed_generation_gives_extractive_answer
    (create : list str -> str -> exn + option str)
    (question_data : str) (st : service_state) :
  (forall ctx q,
     match create ctx q with
     | inr (Some (_ :: _)) => False
     | _ => True
     end) ->
  (ask_with (Some create) question_data st).1
  = (ask_with None question_data st).1
  /\ answer_cache (ask_with (Some create) question_data st).2
     = answer_cache (ask_with None question_data st).2
  /\ (forall key,
        ~ invalid_input question_data ->
        key_of (strip question_data) = inr key ->
        answer_cache st !! key = None ->
        found (strip question_data) 3%Z <> [] ->
        exists a,
        (ask_with (Some create) question_data st).1 = inr a
        /\ answer a
           = lit "Найдено в ПДД РК:" ++ [10; 10]%N
             ++ join [10%N]
                  (map (fun m => title (rule m) ++ lit ": " ++ content (rule m))
                     (found (strip question_data) 3%Z))).
Proof.
  intros Hnone.
  destruct (invalid_input_dec question_data) as [Hbad|Hv].
  - rewrite !(ask_rejects_detail _ _ _ Hbad).
    split; [reflexivity|]. split; [reflexivity|].
    intros key Hv. contradiction.
  - destruct (key_of (strip question_data)) as [e|key] eqn:Hk.
    + rewrite !(ask_unencodable _ _ _ _ _ _ _ _ _ Hv Hk).
      split; [reflexivity|]. split; [reflexivity|]. discriminate.
    + destruct (answer_cache st !! key) as [cached|] eqn:Hc.
      * rewrite !(ask_hit _ _ _ _ _ _ _ _ _ _ Hv Hk Hc).
        split; [reflexivity|]. split; [reflexivity|].
        intros key' _ [= <-] Hc'. rewrite Hc in Hc'. discriminate.
      * rewrite !(ask_miss _ _ _ _ _ _ _ _ _ Hv Hk Hc).
        rewrite (composed_without_completion create _ _ Hnone).
        split; [reflexivity|]. split; [reflexivity|].
        intros key' _ _ _ Hne. eexists. split; [reflexivity|].
        destruct (found (strip question_data) 3%Z) as [|r rs] eqn:Hrs;
          [contradiction|].
        unfold composed. cbv zeta. cbn [answer]. unfold generated_text, gather.
        now rewrite gather_context_fold.
Qed.

(** X8. The sources of a freshly computed answer mirror the matches of the
    retrieval: one entry per match, in the order of the matches, carrying
    the section, id and title of the matched rule and the relevance of the
    match; without the semantic backend there are at most three of them. *)
Theorem sources_mirror_matches
    (openai_client : option (list str -> str -> exn + option str))
    (question_data : str) (st : service_state) (key : str) :
  ~ invalid_input question_data ->
  key_of (strip question_data) = inr key ->
  answer_cache st !! key = None ->
  exists a st',
    ask_with openai_client question_data st = (inr a, st')
    /\ sources a = map source_of (found (strip question_data) 3%Z)
    /\ (CHROMA_AVAILABLE = false -> (length (sources a) <= 3)%nat).
Proof.
  intros Hv Hk Hc. eexists _, _. split; [eapply ask_miss; eassumption|].
  assert (sources (composed openai_client (strip question_data)
                     (found (strip question_data) 3%Z))
          = map source_of (found (strip question_data) 3%Z)) as Hsrc.
  { destruct (found (strip question_data) 3%Z) as [|r rs]; [reflexivity|].
    unfold composed. cbv zeta. cbn [sources]. apply gather_sources. }
  split; [exact Hsrc|].
  intros Hoff. rewrite Hsrc, length_map. unfold retrieved. rewrite Hoff.
  pose proof (slice_to_length 3
                (sorted_desc (scan_rules lower_cp PDD_DATA
                                (lower lower_cp (strip question_data)))))
    as Hlen.
  unfold simple_search. cbv zeta. lia.
Qed.

End ServiceExtras.

(** X9. The cache key ignores surrounding whitespace and letter case: for
    a case map that keeps whitespace whitespace, padding a question with
    whitespace on either side, or replacing it by a question with the same
    lowercase form, leaves [get_cache_key] unchanged. *)
Theorem cache_key_ignores_padding_and_case
    (lower_cp : N -> list N) (md5_hexdigest : list N -> str)
    (ws1 ws2 q q' : str) :
  (forall c, isspace c = true ->
             Forall (fun c' => isspace c' = true) (lower_cp c)) ->
  Forall (fun c => isspace c = true) ws1 ->
  Forall (fun c => isspace c = true) ws2 ->
  lower lower_cp q' = lower lower_cp q ->
  get_cache_key lower_cp md5_hexdigest (ws1 ++ q' ++ ws2)
  = get_cache_key lower_cp md5_hexdigest q.
Proof.
  intros Hsp H1 H2 Hcase. unfold get_cache_key.
  rewrite !lower_app, Hcase.
  rewrite strip_padding; [reflexivity| |]; now apply lower_blank_all.
Qed.

(** * Serving many requests *)

Lemma is_valid_spec (question_data : str) :
  is_valid question_data = true <-> ~ invalid_input question_data.
Proof.
  unfold is_valid, invalid_input.
  destruct (strip question_data) as [|c q].
  - split; [discriminate | intros H; exfalso; apply H; now left].
  - rewrite Nat.leb_le. split.
    + intros H [H'|H']; [discriminate | lia].
    + intros H. destruct (Nat.le_gt_cases (length (c :: q)) 500) as [Hle|Hgt];
        [exact Hle|]. exfalso. apply H. now right.
Qed.

Lemma has_cache_key_spec (lower_cp : N -> list N)
    (md5_hexdigest : list N -> str) (question_data : str) :
  (has_cache_key lower_cp question_data = true ->
   exists key,
     get_cache_key lower_cp md5_hexdigest (strip question_data) = inr key)
  /\ (has_cache_key lower_cp question_data = false ->
      get_cache_key lower_cp md5_hexdigest (strip question_data)
      = inl UnicodeEncodeError).
Proof.
  unfold has_cache_key, get_cache_key, encode.
  destruct (existsb is_surrogate (strip (lower lower_cp (strip question_data))));
    simpl; split; intros H; try discriminate.
  - reflexivity.
  - eexists. reflexivity.
Qed.

Lemma not_found_answer_ok : answer_ok not_found_answer.
Proof.
  unfold answer_ok, not_found_answer. cbn [answer confidence].
  split; [|split; discriminate].
  intros H. apply (f_equal length) in H. vm_compute in H. discriminate.
Qed.

Lemma state_ok_empty : state_ok empty_state.
Proof.
  unfold state_ok, empty_state. simpl.
  split; [lia|]. split; [lia|]. split; [rewrite map_size_empty; lia|].
  intros k a H. rewrite lookup_empty in H. discriminate.
Qed.

Section ServingFacts.

Variable lower_cp : N -> list N.
Variable md5_hexdigest : list N -> str.
Variable PDD_DATA : list rule_doc.
Variable CHROMA_AVAILABLE : bool.

Local Abbreviation respond_to := (respond lower_cp md5_hexdigest PDD_DATA
                                    CHROMA_AVAILABLE).
Local Abbreviation serve_all := (serve lower_cp md5_hexdigest PDD_DATA
                                   CHROMA_AVAILABLE).
Local Abbreviation key_of := (get_cache_key lower_cp md5_hexdigest).

Lemma composed_ok
    (client : option (str -> Z -> exn + query_result))
    (openai_client : option (list str -> str -> exn + option str))
    (question : str) (n : Z) :
  answer_ok (composed openai_client question
               (retrieved lower_cp PDD_DATA CHROMA_AVAILABLE client question n)).
Proof.
  destruct (retrieved lower_cp PDD_DATA CHROMA_AVAILABLE client question n)
    as [|r rs] eqn:Hrs; [apply not_found_answer_ok|].
  assert (r :: rs <> []) as Hne by discriminate.
  unfold answer_ok. split; [|split].
  - unfold composed. cbv zeta. cbn [answer].
    destruct (generated_text openai_client _ question) as [[|c text]|];
      try discriminate;
      intros H; apply (f_equal length) in H; rewrite length_app in H;
      vm_compute in H; discriminate.
  - rewrite composed_confidence by exact Hne.
    apply Q.min_glb; [|discriminate].
    apply mean_nonneg; [discriminate|].
    apply Forall_forall. intros x Hx.
    apply list_elem_of_In, in_map_iff in Hx. destruct Hx as (m & <- & Hm).
    apply (retrieved_nonneg lower_cp PDD_DATA CHROMA_AVAILABLE client question n).
    rewrite Hrs. now apply list_elem_of_In.
  - rewrite composed_confidence by exact Hne. apply Q.le_min_r.
Qed.

(** The four ways a request ends. *)
Lemma respond_cases (st : service_state) (r : request) :
  (is_valid (asked r) = false
   /\ exists detail, respond_to st r = (inl (HTTPException 400 detail), st))
  \/ (is_valid (asked r) = true
      /\ has_cache_key lower_cp (asked r) = false
      /\ respond_to st r = (inl UnicodeEncodeError, st))
  \/ (is_valid (asked r) = true
      /\ has_cache_key lower_cp (asked r) = true
      /\ exists key cached,
           key_of (strip (asked r)) = inr key
           /\ answer_cache st !! key = Some cached
           /\ respond_to st r = (inr cached, after_hit st))
  \/ (is_valid (asked r) = true
      /\ has_cache_key lower_cp (asked r) = true
      /\ exists key a evs,
           key_of (strip (asked r)) = inr key
           /\ answer_cache st !! key = None
           /\ answer_ok a
           /\ respond_to st r = (inr a, after_miss st key a evs)).
Proof.
  unfold respond.
  destruct (invalid_input_dec (asked r)) as [Hbad|Hv].
  - left. split.
    + apply not_true_iff_false. rewrite is_valid_spec. tauto.
    + now apply ask_rejects.
  - right. pose proof (proj2 (is_valid_spec _) Hv) as Hb.
    destruct (has_cache_key_spec lower_cp md5_hexdigest (asked r)) as [Hyes Hno].
    destruct (has_cache_key lower_cp (asked r)) eqn:Hkey.
    + right. destruct (Hyes eq_refl) as [key Hk].
      destruct (answer_cache st !! key) as [cached|] eqn:Hc.
      * left. split; [exact Hb|]. split; [reflexivity|].
        exists key, cached. split; [exact Hk|]. split; [exact Hc|].
        eapply ask_hit; eassumption.
      * right. split; [exact Hb|]. split; [reflexivity|].
        eexists key, _, _. split; [exact Hk|]. split; [exact Hc|].
        split; [|eapply ask_miss; eassumption].
        apply composed_ok.
    + left. split; [exact Hb|]. split; [reflexivity|].
      apply ask_unencodable; [exact Hv | now apply Hno].
Qed.

Lemma respond_keeps_state_ok (st : service_state) (r : request) :
  state_ok st -> state_ok (respond_to st r).2.
Proof.
  intros (Hh & Hm & Hsize & Hans).
  destruct (respond_cases st r)
    as [(_ & detail & ->)
       |[(_ & _ & ->)
        |[(_ & _ & key & cached & _ & Hc & ->)
         |(_ & _ & key & a & evs & _ & Hc & Ha & ->)]]];
    unfold state_ok; simpl.
  - split; [exact Hh|]. split; [exact Hm|]. split; [exact Hsize | exact Hans].
  - split; [exact Hh|]. split; [exact Hm|]. split; [exact Hsize | exact Hans].
  - split; [lia|]. split; [exact Hm|]. split; [exact Hsize | exact Hans].
  - rewrite (map_size_insert_None _ _ _ Hc).
    split; [exact Hh|]. split; [lia|]. split; [lia|].
    intros k a' Hk. destruct (decide (key = k)) as [<-|Hne].
    + rewrite lookup_insert_eq in Hk. now injection Hk as <-.
    + rewrite lookup_insert_ne in Hk by exact Hne. eapply Hans; eauto.
Qed.

Lemma serve_cons (r : request) (requests : list request) (st : service_state) :
  serve_all (r :: requests) st = serve_all requests (respond_to st r).2.
Proof. reflexivity. Qed.

(** X10. Every state the service reaches from a sound state is sound: the
    counters are not negative, the cache never holds more entries than
    there were misses, and every cached answer has some text and a
    confidence between 0 and 1. *)
Theorem serving_keeps_state_sound (requests : list request)
    (st : service_state) :
  state_ok st -> state_ok (serve_all requests st).
Proof.
  revert st. induction requests as [|r requests IH]; intros st Hok;
    [exact Hok|].
  rewrite serve_cons. apply IH. now apply respond_keeps_state_ok.
Qed.

(** X11. Every answer the service returns, computed or cached, after any
    sequence of requests from a sound state, has a non-empty text and a
    confidence between 0 and 1, also when the relevances of its sources
    exceed 1. *)
Theorem every_response_is_usable (requests : list request) (r : request)
    (st st' : service_state) (a : Answer) :
  state_ok st ->
  respond_to (serve_all requests st) r = (inr a, st') ->
  answer_ok a.
Proof.
  revert st. induction requests as [|r0 requests IH]; intros st Hok Hrun.
  - simpl in Hrun. destruct Hok as (_ & _ & _ & Hans).
    destruct (respond_cases st r)
      as [(_ & detail & H)
         |[(_ & _ & H)
          |[(_ & _ & key & cached & _ & Hc & H)
           |(_ & _ & key & a0 & evs & _ & Hc & Ha & H)]]];
      rewrite H in Hrun.
    + discriminate.
    + discriminate.
    + injection Hrun as <- _. eapply Hans; eauto.
    + now injection Hrun as <- _.
  - rewrite serve_cons in Hrun.
    apply (IH (respond_to st r0).2); [|exact Hrun].
    now apply respond_keeps_state_ok.
Qed.

(** X12. The cache only grows: an entry, once stored, is never removed or
    replaced, whatever requests follow. *)
Theorem cache_entries_are_stable (requests : list request)
    (st : service_state) (k : str) (a : Answer) :
  answer_cache st !! k = Some a ->
  answer_cache (serve_all requests st) !! k = Some a.
Proof.
  revert st. induction requests as [|r requests IH]; intros st Hk;
    [exact Hk|].
  rewrite serve_cons. apply IH.
  destruct (respond_cases st r)
    as [(_ & detail & ->)
       |[(_ & _ & ->)
        |[(_ & _ & key & cached & _ & Hc & ->)
         |(_ & _ & key & a0 & evs & _ & Hc & _ & ->)]]];
    simpl; try exact Hk.
  rewrite lookup_insert_ne; [exact Hk|].
  intros <-. rewrite Hc in Hk. discriminate.
Qed.

(** X13. The two counters together count the requests that reach the cache
    lookup: after any sequence of requests their sum has grown by the number
    of requests whose question passed validation and has a cache key;
    requests rejected by validation, or ended by the encoding error of
    [get_cache_key], are not counted, and neither counter ever decreases. *)
Theorem counters_count_valid_requests (requests : list request)
    (st : service_state) :
  (cache_hits (serve_all requests st) + cache_misses (serve_all requests st)
   = cache_hits st + cache_misses st
     + Z.of_nat (length (List.filter (reaches_cache lower_cp) requests)))%Z
  /\ (cache_hits st <= cache_hits (serve_all requests st))%Z
  /\ (cache_misses st <= cache_misses (serve_all requests st))%Z.
Proof.
  revert st. induction requests as [|r requests IH]; intros st.
  - simpl. lia.
  - rewrite serve_cons. specialize (IH (respond_to st r).2).
    simpl List.filter. unfold reaches_cache at 1.
    destruct (respond_cases st r)
      as [(Hb & detail & H)
         |[(Hb & Hkey & H)
          |[(Hb & Hkey & key & cached & _ & Hc & H)
           |(Hb & Hkey & key & a0 & evs & _ & Hc & _ & H)]]];
      rewrite H in IH |- *; rewrite Hb; try rewrite Hkey;
      simpl in IH |- *; lia.
Qed.

Lemma served_state_summary (requests : list request) (st : service_state) :
  state_ok st ->
  state_ok (serve_all requests st)
  /\ (cache_hits (serve_all requests st) + cache_misses (serve_all requests st)
      = cache_hits st + cache_misses st
        + Z.of_nat (length (List.filter (reaches_cache lower_cp) requests)))%Z.
Proof.
  revert st. induction requests as [|r requests IH]; intros st Hok.
  - simpl. split; [exact Hok | lia].
  - rewrite serve_cons.
    destruct (IH (respond_to st r).2 (respond_keeps_state_ok st r Hok))
      as [Hok' Hsum].
    split; [exact Hok'|]. rewrite Hsum. simpl List.filter.
    unfold reaches_cache at 2.
    destruct (respond_cases st r)
      as [(Hb & detail & H)
         |[(Hb & Hkey & H)
          |[(Hb & Hkey & key & cached & _ & Hc & H)
           |(Hb & Hkey & key & a0 & evs & _ & Hc & _ & H)]]];
      rewrite H, Hb; try rewrite Hkey; simpl; lia.
Qed.

End ServingFacts.

(** ** The metrics *)

Lemma round_half_even_bounds (a b : Z) (x : Q) :
  inject_Z a <= x -> x <= inject_Z b ->
  (a <= round_half_even x <= b)%Z.
Proof.
  intros Ha Hb.
  assert (a <= Qfloor x)%Z as Hfa
    by (rewrite <- (Qfloor_Z a); now apply Qfloor_resp_le).
  assert (Qfloor x <= b)%Z as Hfb
    by (rewrite <- (Qfloor_Z b); now apply Qfloor_resp_le).
  assert (Qltb (x - inject_Z (Qfloor x)) (1 # 2) = false
          -> (Qfloor x + 1 <= b)%Z) as Hup.
  { intros Hr. apply Qltb_ge in Hr.
    destruct (Z_lt_le_dec (Qfloor x) b) as [Hlt|Hge]; [lia|].
    exfalso. apply (Qlt_irrefl (1 # 2)).
    apply Qle_lt_trans with (x - inject_Z (Qfloor x)); [exact Hr|].
    apply Qle_lt_trans with 0; [|reflexivity].
    unfold Qminus. apply (Qplus_le_l _ _ (inject_Z (Qfloor x))).
    setoid_replace (x + - inject_Z (Qfloor x) + inject_Z (Qfloor x))
      with x using relation Qeq by ring.
    rewrite Qplus_0_l. apply Qle_trans with (inject_Z b); [exact Hb|].
    now rewrite <- Zle_Qle. }
  unfold round_half_even. cbv zeta.
  destruct (Qltb (x - inject_Z (Qfloor x)) (1 # 2)) eqn:H1; [lia|].
  specialize (Hup eq_refl).
  destruct (Qltb (1 # 2) (x - inject_Z (Qfloor x))); [lia|].
  destruct (Z.even (Qfloor x)); lia.
Qed.

Lemma py_round2_bounds (x : Q) :
  0 <= x -> x <= 100 -> 0 <= py_round2 x /\ py_round2 x <= 100.
Proof.
  intros H0 H1.
  destruct (round_half_even_bounds 0 10000 (x * 100)) as [Hlo Hhi].
  - change (inject_Z 0) with 0. apply Qmult_le_0_compat; [exact H0|discriminate].
  - change (inject_Z 10000) with (100 * 100).
    apply Qmult_le_compat_r; [exact H1 | discriminate].
  - unfold py_round2. split.
    + apply Qle_shift_div_l; [reflexivity|]. rewrite Qmult_0_l.
      change 0 with (inject_Z 0). now rewrite <- Zle_Qle.
    + apply Qle_shift_div_r; [reflexivity|].
      change (100 * 100) with (inject_Z 10000). now rewrite <- Zle_Qle.
Qed.

Lemma hit_rate_bounds (h t : Z) :
  (0 <= h)%Z -> (h <= t)%Z -> (0 < t)%Z ->
  0 <= inject_Z h / inject_Z t * 100 /\ inject_Z h / inject_Z t * 100 <= 100.
Proof.
  intros Hh Hht Ht.
  assert (0 < inject_Z t) as Htq
    by (change 0 with (inject_Z 0); now rewrite <- Zlt_Qlt).
  assert (0 <= inject_Z h / inject_Z t) as Hlo.
  { apply Qle_shift_div_l; [exact Htq|]. rewrite Qmult_0_l.
    change 0 with (inject_Z 0). now rewrite <- Zle_Qle. }
  assert (inject_Z h / inject_Z t <= 1) as Hhi.
  { apply Qle_shift_div_r; [exact Htq|]. rewrite Qmult_1_l.
    now rewrite <- Zle_Qle. }
  split.
  - apply Qmult_le_0_compat; [exact Hlo | discriminate].
  - setoid_replace 100 with (1 * 100) using relation Qeq at 2 by ring.
    apply Qmult_le_compat_r; [exact Hhi | discriminate].
Qed.

(** X14. The metrics of a state reached by serving requests from start-up
    do not change the state; [total_queries] is the number of requests that
    reached the cache lookup (valid question, with a cache key), the hit
    rate is a percentage between 0 and 100 (and 0 when nothing was asked: no
    division by zero), and [cache_size] is at most the number of misses. *)
Theorem metrics_of_served_requests
    (lower_cp : N -> list N) (md5_hexdigest : list N -> str)
    (PDD_DATA : list rule_doc) (CHROMA_AVAILABLE : bool)
    (requests : list request) :
  exists m,
    get_metrics (serve lower_cp md5_hexdigest PDD_DATA CHROMA_AVAILABLE
                   requests empty_state)
    = (inr m, serve lower_cp md5_hexdigest PDD_DATA CHROMA_AVAILABLE
                requests empty_state)
    /\ Metrics.total_queries m
       = Z.of_nat (length (List.filter (reaches_cache lower_cp) requests))
    /\ Metrics.total_queries m
       = (Metrics.cache_hits m + Metrics.cache_misses m)%Z
    /\ 0 <= Metrics.hit_rate_percent m
    /\ Metrics.hit_rate_percent m <= 100
    /\ (Metrics.total_queries m = 0%Z -> Metrics.hit_rate_percent m == 0)
    /\ (Z.of_nat (Metrics.cache_size m) <= Metrics.cache_misses m)%Z.
Proof.
  set (st := serve lower_cp md5_hexdigest PDD_DATA CHROMA_AVAILABLE
               requests empty_state).
  pose proof (served_state_summary lower_cp md5_hexdigest PDD_DATA
                CHROMA_AVAILABLE requests empty_state state_ok_empty)
    as ((Hh & Hm & Hsize & _) & Hsum).
  fold st in Hh, Hm, Hsize, Hsum. simpl in Hsum.
  eexists. split; [reflexivity|]. cbn [Metrics.total_queries Metrics.cache_hits
    Metrics.cache_misses Metrics.hit_rate_percent Metrics.cache_size].
  split; [exact Hsum|]. split; [reflexivity|].
  destruct (0 <? cache_hits st + cache_misses st)%Z eqn:Hpos.
  - apply Z.ltb_lt in Hpos.
    destruct (hit_rate_bounds (cache_hits st) (cache_hits st + cache_misses st))
      as [Hlo Hhi]; try lia.
    destruct (py_round2_bounds _ Hlo Hhi) as [Hrlo Hrhi].
    split; [exact Hrlo|]. split; [exact Hrhi|]. split; [intros Hz; lia|].
    exact Hsize.
  - split; [discriminate|]. split; [discriminate|].
    split; [reflexivity | exact Hsize].
Qed.

(** ** The further properties at concrete inputs *)

Lemma short_distances_discard_semantic_hits_witness :
  (chroma_search demo_corpus (Some short_backend) (lit "круг") 3 empty_state).1
  = inr []
  /\ (search_pdd lower_cp_basic demo_corpus true (Some short_backend)
        (lit "круг") 3 empty_state).1
     = inr (simple_search lower_cp_basic demo_corpus (lit "круг") 3).
Proof.
  apply (short_distances_discard_semantic_hits lower_cp_basic demo_corpus
           short_backend (lit "круг") 3 empty_state
           [indexed_text rule_13_7; indexed_text rule_6_2] []
           [0.2] [] 1 (indexed_text rule_6_2)).
  - reflexivity.
  - reflexivity.
  - vm_compute. discriminate.
  - simpl. lia.
Defined.

Lemma indexed_text_maps_back_witness :
  exists r',
    matching_rule demo_corpus (indexed_text rule_6_2) = Some r'
    /\ r' ∈ demo_corpus
    /\ contains (content r') (indexed_text rule_6_2)
       || contains (title r') (indexed_text rule_6_2) = true
    /\ ((forall r0,
           r0 ∈ demo_corpus ->
           contains (content r0) (indexed_text rule_6_2)
           || contains (title r0) (indexed_text rule_6_2) = true ->
           r0 = rule_6_2) ->
        r' = rule_6_2).
Proof.
  apply (indexed_text_maps_back demo_corpus rule_6_2).
  apply list_elem_of_further, list_elem_of_here.
Defined.

Lemma failed_generation_gives_extractive_answer_witness :
  (ask_question lower_cp_basic plain_key demo_corpus false None
     (Some failing_openai) (lit "Красный светофор") empty_state).1
  = (ask_question lower_cp_basic plain_key demo_corpus false None None
       (lit "Красный светофор") empty_state).1.
Proof.
  apply (failed_generation_gives_extractive_answer lower_cp_basic plain_key
           demo_corpus false None failing_openai (lit "Красный светофор")
           empty_state).
  intros ctx q. exact I.
Defined.

Lemma sources_mirror_matches_witness :
  exists a st',
    ask_question lower_cp_basic plain_key demo_corpus false None None
      (lit "Красный светофор на круге") empty_state = (inr a, st')
    /\ sources a
       = map source_of
           (retrieved lower_cp_basic demo_corpus false None
              (strip (lit "Красный светофор на круге")) 3)
    /\ (false = false -> (length (sources a) <= 3)%nat).
Proof.
  apply (sources_mirror_matches lower_cp_basic plain_key demo_corpus false None
           None (lit "Красный светофор на круге") empty_state
           (plain_key (flat_map utf8_bytes (lit "красный светофор на круге")))).
  - apply valid_input_check. vm_compute. reflexivity.
  - vm_compute. reflexivity.
  - reflexivity.
Defined.

Lemma cache_key_ignores_padding_and_case_witness :
  get_cache_key lower_cp_basic plain_key
    (lit "  " ++ lit "КТО УСТУПАЕТ?" ++ [10; 9]%N)
  = get_cache_key lower_cp_basic plain_key (lit "Кто уступает?").
Proof.
  apply (cache_key_ignores_padding_and_case lower_cp_basic plain_key
           (lit "  ") [10; 9]%N (lit "Кто уступает?") (lit "КТО УСТУПАЕТ?")).
  - exact lower_cp_basic_blank.
  - repeat constructor.
  - repeat constructor.
  - vm_compute. reflexivity.
Defined.

Lemma serving_keeps_state_sound_witness :
  state_ok
    (serve lower_cp_basic plain_key demo_corpus true
       [plain_request (lit "Красный светофор"); plain_request [];
        negative_request (lit "круг"); plain_request (lit " красный СВЕТОФОР ")]
       empty_state).
Proof.
  apply (serving_keeps_state_sound lower_cp_basic plain_key demo_corpus true).
  exact state_ok_empty.
Defined.

Lemma every_response_is_usable_witness :
  exists a st',
    respond lower_cp_basic plain_key demo_corpus true
      (serve lower_cp_basic plain_key demo_corpus true
         [plain_request (lit "Красный светофор")] empty_state)
      (negative_request (lit "круг")) = (inr a, st')
    /\ map src_relevance (sources a) = [1 - - (1 # 2)]
    /\ answer_ok a.
Proof.
  assert (~ invalid_input (lit "круг")) as Hv
    by (apply valid_input_check; vm_compute; reflexivity).
  eexists _, _.
  split; [eapply (ask_miss _ _ _ _ _ _ _ _ _ Hv); vm_compute; reflexivity|].
  split; [vm_compute; reflexivity|].
  refine (every_response_is_usable lower_cp_basic plain_key demo_corpus true
            [plain_request (lit "Красный светофор")]
            (negative_request (lit "круг")) empty_state _ _ state_ok_empty _).
  eapply (ask_miss _ _ _ _ _ _ _ _ _ Hv); vm_compute; reflexivity.
Defined.

Lemma cache_entries_are_stable_witness :
  answer_cache
    (serve lower_cp_basic plain_key demo_corpus true
       [plain_request (lit "XYZ"); negative_request (lit "круг")]
       (serve lower_cp_basic plain_key demo_corpus true
          [plain_request (lit "xyz")] empty_state))
  !! lit "xyz" = Some not_found_answer.
Proof.
  apply (cache_entries_are_stable lower_cp_basic plain_key demo_corpus true).
  vm_compute. reflexivity.
Defined.

Example metrics_after_four_requests :
  exists m st,
    get_metrics
      (serve lower_cp_basic plain_key demo_corpus false
         [plain_request (lit "Красный светофор"); plain_request (lit "   ");
          plain_request [55296%N];
          plain_request (lit " красный СВЕТОФОР ")] empty_state)
    = (inr m, st)
    /\ Metrics.total_queries m = 2%Z
    /\ Metrics.cache_hits m = 1%Z
    /\ Metrics.cache_misses m = 1%Z
    /\ Metrics.hit_rate_percent m == 50
    /\ Metrics.cache_size m = 1%nat.
Proof.
  eexists _, _. split; [reflexivity|].
  repeat split; vm_compute; reflexivity.
Qed.

Example round_to_cents :
  py_round2 ((1 # 3) * 100) == 33.33 /\ py_round2 ((2 # 3) * 100) == 66.67
  /\ py_round2 (1 # 8) == 0.12 /\ py_round2 (3 # 8) == 0.38.
Proof. repeat split; vm_compute; reflexivity. Qed.

Example prepare_documents_demo :
  let '(ids, documents, metadatas) :=
    prepare_documents
      [{| base := {| id := lit "1.1"; section := lit "Section 1";
                      title := lit "Test Rule"; content := lit "Test content";
                      keywords := [lit "test"; lit "rule"] |};
          rule_type := lit "rule" |}] in
  ids = [lit "1.1"]
  /\ documents = [lit "Test Rule. Test content"]
  /\ map md_keywords metadatas = [lit "test, rule"].
Proof. vm_compute. repeat split; reflexivity. Qed.

Lemma prepare_documents_aligned_witness :
  (prepare_documents [test_rule]).1.1 !! 0%nat = Some (lit "1.1")
  /\ exists doc md,
       (prepare_documents [test_rule]).1.2 !! 0%nat = Some doc
       /\ contains (lit "Test Rule") doc = true
       /\ contains (lit "Test content") doc = true
       /\ (prepare_documents [test_rule]).2 !! 0%nat = Some md
       /\ md_title md = lit "Test Rule"
       /\ md_type md = lit "rule".
Proof.
  apply (proj2 (proj2 (proj2 (prepare_documents_aligned [test_rule])))
           0%nat test_rule).
  reflexivity.
Defined.
